(** * TapuLex: the data layer and the chat page, embedded in Rocq

    The development follows the repository's sources:

    - the database schema (tables [orgs], [documents], [document_chunks],
      their constraints and the first [match_documents]);
    - the vector-search migration (the second [match_documents] and the
      [chat_feedback] table);
    - the chat page of the front end ([handleSend] in [Chat.jsx]) and the
      [submitFeedback] call of [api.js].

    SQL values are modelled with their NULL: a nullable column or argument
    is an [option], a condition is an [option bool] and follows SQL's
    three-valued logic.  A [float] is modelled as an exact rational: order
    and subtraction are those of the rationals, rounding and NaN are outside
    the model.  The pgvector operator [<=>] is not code of the repository
    and is a parameter of the search functions. *)

From Stdlib Require Import ZArith QArith Qminmax List String Ascii Bool Lia Lqa.
From Stdlib Require Import Permutation Sorted NArith.
Import ListNotations.

Local Open Scope Z_scope.

(* ================================================================== *)
(** * SQL values and conditions *)

Module Sql.

(** A condition: [Some true], [Some false], or [None] for NULL. *)
Definition cond := option bool.

Definition and3 (a b : cond) : cond :=
  match a, b with
  | Some false, _ | _, Some false => Some false
  | Some true, Some true => Some true
  | _, _ => None
  end.

Definition or3 (a b : cond) : cond :=
  match a, b with
  | Some true, _ | _, Some true => Some true
  | Some false, Some false => Some false
  | _, _ => None
  end.

(** A strict binary operator: NULL as soon as one operand is NULL. *)
Definition strict2 {A B C} (f : A -> B -> C) (a : option A) (b : option B)
  : option C :=
  match a with
  | Some x => match b with Some y => Some (f x y) | None => None end
  | None => None
  end.

Definition is_null {A} (a : option A) : cond :=
  match a with None => Some true | Some _ => Some false end.

Definition is_not_null {A} (a : option A) : cond :=
  match a with None => Some false | Some _ => Some true end.

(** [x IN (v1, ..., vn)] with literal, non-NULL members. *)
Definition in_list {A} (eqb : A -> A -> bool) (a : option A) (l : list A)
  : cond :=
  match a with
  | None => None
  | Some x => Some (existsb (eqb x) l)
  end.

(** A WHERE clause keeps a row only when its condition is true. *)
Definition holds (c : cond) : bool :=
  match c with Some true => true | _ => false end.

(** A CHECK constraint rejects a row only when its condition is false. *)
Definition check_passes (c : cond) : bool :=
  match c with Some false => false | _ => true end.

(** Comparisons of [float] and [integer] values. *)
Definition Qgtb (a b : Q) : bool := negb (Qle_bool a b).

Definition float_gt : option Q -> option Q -> cond := strict2 Qgtb.
Definition float_sub : option Q -> option Q -> option Q := strict2 Qminus.
Definition int_ge : option Z -> option Z -> cond := strict2 Z.geb.
Definition int_le : option Z -> option Z -> cond := strict2 Z.leb.

(** The order of [ORDER BY e] (ascending, NULLs last). *)
Definition asc_le (a b : option Q) : bool :=
  match a, b with
  | Some x, Some y => Qle_bool x y
  | _, None => true
  | None, Some _ => false
  end.

(** [ORDER BY]: the rows sorted on one key.  Rows with equal keys stay in
    the order in which they arrive; no other key is consulted. *)
Fixpoint insert_by {A} (key : A -> option Q) (x : A) (l : list A) : list A :=
  match l with
  | [] => [x]
  | y :: l' =>
      if asc_le (key x) (key y) then x :: y :: l'
      else y :: insert_by key x l'
  end.

Definition order_by {A} (key : A -> option Q) (l : list A) : list A :=
  fold_right (insert_by key) [] l.

(** [x] does not come after [y] in the order of the key. *)
Definition ascending {A} (key : A -> option Q) (x y : A) : Prop :=
  asc_le (key x) (key y) = true.


(** [a] is at least [b], both present: the order of a descending
    ranking. *)
Definition desc (a b : option Q) : Prop :=
  match a, b with
  | Some x, Some y => (y <= x)%Q
  | _, _ => False
  end.

Inductive error :=
| NegativeLimit          (* LIMIT must not be negative *)
| NotNullViolation
| CheckViolation
| UniqueViolation
| ForeignKeyViolation.

(** A row count that LIMIT accepts. *)
Definition valid_count (n : option Z) : Prop :=
  match n with
  | Some k => 0 <= k
  | None => True
  end.

(** [LIMIT n]: NULL means no limit, a negative count is an error. *)
Definition limit {A} (n : option Z) (l : list A) : error + list A :=
  match n with
  | None => inr l
  | Some k => if k <? 0 then inl NegativeLimit else inr (firstn (Z.to_nat k) l)
  end.

End Sql.

(* ================================================================== *)
(** * The tables of the schema *)

(** A row has one field per column, in the order of the CREATE TABLE.  A
    column declared NOT NULL (or PRIMARY KEY) holds a value, any other
    column an [option].  A table is the list of its rows in the order in
    which a scan delivers them; INSERT adds at the end.  The tables of the
    chat history and the references to [auth.users] are left out: no
    function below reads them. *)

Definition uuid := N.
Definition timestamptz := Z.
Definition jsonb := string.

(** [vector(1536)]: the components of an embedding. *)
Definition vector := list Q.

Record orgs_row := {
  org_id : uuid;
  org_name : string;
  org_created_at : option timestamptz
}.

Record documents_row := {
  doc_id : uuid;
  doc_org_id : uuid;
  doc_uploaded_by : option uuid;
  doc_storage_bucket : option string;
  doc_storage_path : string;
  doc_filename : string;
  doc_mime_type : string;
  doc_size_bytes : Z;
  doc_status : option string;
  doc_error_message : option string;
  doc_created_at : option timestamptz;
  doc_updated_at : option timestamptz
}.

Record document_chunks_row := {
  dc_id : uuid;
  dc_org_id : uuid;
  dc_document_id : uuid;
  dc_chunk_index : Z;
  dc_text : string;
  dc_metadata : option jsonb;
  dc_embedding : option vector;
  dc_created_at : option timestamptz
}.

Record database := {
  orgs : list orgs_row;
  documents : list documents_row;
  document_chunks : list document_chunks_row
}.

Definition empty_db : database :=
  {| orgs := []; documents := []; document_chunks := [] |}.

(* ================================================================== *)
(** * Similarity search: the two [match_documents] *)

Module Search.
Section WithDistance.

(** The pgvector operator [a <=> b] on two present vectors. *)
Variable cosine_distance : vector -> vector -> Q.

(** [dc.embedding <=> query_embedding]: NULL when an operand is NULL. *)
Definition distance (e q : option vector) : option Q :=
  Sql.strict2 cosine_distance e q.

(** [1 - (dc.embedding <=> query_embedding)] *)
Definition similarity (e q : option vector) : option Q :=
  Sql.float_sub (Some 1%Q) (distance e q).

(** ** The function of the schema file *)

Record schema_match := {
  sm_id : uuid;
  sm_document_id : uuid;
  sm_chunk_index : Z;
  sm_text : string;
  sm_metadata : option jsonb;
  sm_similarity : option Q
}.

Definition schema_where (query_embedding : option vector)
    (match_threshold : option Q) (filter_org_id : option uuid)
    (dc : document_chunks_row) : Sql.cond :=
  Sql.and3
    (Sql.and3
       (Sql.strict2 N.eqb (Some (dc_org_id dc)) filter_org_id)
       (Sql.is_not_null (dc_embedding dc)))
    (Sql.float_gt (similarity (dc_embedding dc) query_embedding)
       match_threshold).

Definition schema_select (query_embedding : option vector)
    (dc : document_chunks_row) : schema_match :=
  {| sm_id := dc_id dc;
     sm_document_id := dc_document_id dc;
     sm_chunk_index := dc_chunk_index dc;
     sm_text := dc_text dc;
     sm_metadata := dc_metadata dc;
     sm_similarity := similarity (dc_embedding dc) query_embedding |}.

(** FROM and WHERE: the chunks that qualify, in scan order. *)
Definition schema_hits (db : database) (query_embedding : option vector)
    (match_threshold : option Q) (filter_org_id : option uuid)
  : list document_chunks_row :=
  filter
    (fun dc =>
       Sql.holds (schema_where query_embedding match_threshold
                    filter_org_id dc))
    (document_chunks db).

(** ORDER BY: the qualifying chunks, before LIMIT. *)
Definition schema_ranked (db : database) (query_embedding : option vector)
    (match_threshold : option Q) (filter_org_id : option uuid)
  : list document_chunks_row :=
  Sql.order_by (fun dc => distance (dc_embedding dc) query_embedding)
    (schema_hits db query_embedding match_threshold filter_org_id).

Definition match_documents_schema (db : database)
    (query_embedding : option vector) (match_threshold : option Q)
    (match_count : option Z) (filter_org_id : option uuid)
  : Sql.error + list schema_match :=
  match Sql.limit match_count
          (schema_ranked db query_embedding match_threshold filter_org_id)
  with
  | inl e => inl e
  | inr rows => inr (map (schema_select query_embedding) rows)
  end.

(** ** The function of the vector-search migration *)

Record migration_match := {
  mm_id : uuid;
  mm_document_id : uuid;
  mm_text : string;
  mm_metadata : option jsonb;
  mm_similarity : option Q;
  mm_filename : string
}.

(** [document_chunks dc join documents d on dc.document_id = d.id] *)
Definition chunks_join_documents (db : database)
  : list (document_chunks_row * documents_row) :=
  flat_map
    (fun dc =>
       map (pair dc)
         (filter (fun d => N.eqb (dc_document_id dc) (doc_id d))
            (documents db)))
    (document_chunks db).

Definition migration_where (query_embedding : option vector)
    (match_threshold : option Q) (filter_org_id : option uuid)
    (row : document_chunks_row * documents_row) : Sql.cond :=
  let (dc, d) := row in
  Sql.and3
    (Sql.float_gt (similarity (dc_embedding dc) query_embedding)
       match_threshold)
    (Sql.or3
       (Sql.is_null filter_org_id)
       (Sql.strict2 N.eqb (Some (doc_org_id d)) filter_org_id)).

Definition migration_select (query_embedding : option vector)
    (row : document_chunks_row * documents_row) : migration_match :=
  let (dc, d) := row in
  {| mm_id := dc_id dc;
     mm_document_id := dc_document_id dc;
     mm_text := dc_text dc;
     mm_metadata := dc_metadata dc;
     mm_similarity := similarity (dc_embedding dc) query_embedding;
     mm_filename := doc_filename d |}.

Definition migration_hits (db : database) (query_embedding : option vector)
    (match_threshold : option Q) (filter_org_id : option uuid)
  : list (document_chunks_row * documents_row) :=
  filter
    (fun row =>
       Sql.holds (migration_where query_embedding match_threshold
                    filter_org_id row))
    (chunks_join_documents db).

Definition migration_ranked (db : database)
    (query_embedding : option vector) (match_threshold : option Q)
    (filter_org_id : option uuid)
  : list (document_chunks_row * documents_row) :=
  Sql.order_by
    (fun row => distance (dc_embedding (fst row)) query_embedding)
    (migration_hits db query_embedding match_threshold filter_org_id).

Definition match_documents_migration (db : database)
    (query_embedding : option vector) (match_threshold : option Q)
    (match_count : option Z) (filter_org_id : option uuid)
  : Sql.error + list migration_match :=
  match Sql.limit match_count
          (migration_ranked db query_embedding match_threshold
             filter_org_id)
  with
  | inl e => inl e
  | inr rows => inr (map (migration_select query_embedding) rows)
  end.

(** What the two functions have in common: the ids and similarities of
    the rows returned, in order. *)
Definition schema_ranking (r : Sql.error + list schema_match)
  : Sql.error + list (uuid * option Q) :=
  match r with
  | inl e => inl e
  | inr rows => inr (map (fun m => (sm_id m, sm_similarity m)) rows)
  end.

Definition migration_ranking (r : Sql.error + list migration_match)
  : Sql.error + list (uuid * option Q) :=
  match r with
  | inl e => inl e
  | inr rows => inr (map (fun m => (mm_id m, mm_similarity m)) rows)
  end.

End WithDistance.

(** Every chunk carries the organization of its document. *)
Definition org_consistent (db : database) : Prop :=
  forall dc d,
    In dc (document_chunks db) -> In d (documents db) ->
    doc_id d = dc_document_id dc -> doc_org_id d = dc_org_id dc.

(** On vectors of unit length, as the embedding models named in the schema
    produce them, the cosine distance is one minus the inner product. *)
Fixpoint dot (a b : vector) : Q :=
  match a, b with
  | x :: a', y :: b' => (x * y + dot a' b')%Q
  | _, _ => 0%Q
  end.

Definition unit_cosine_distance (a b : vector) : Q := (1 - dot a b)%Q.

End Search.

(* ================================================================== *)
(** * The tables as a store: INSERT, UPDATE and DELETE under the
      constraints of the schema *)

(** A statement is either accepted, and gives the next state of the
    database, or refused with the constraint it violates.  The row level
    security policies decide who may issue a statement, not what it does,
    and are not modelled. *)

Module Store.

(** A column of an INSERT that has a DEFAULT: left out, or given a value
    (which may be NULL).  A column without DEFAULT that is left out is
    NULL, so it is an [option]. *)
Inductive column (A : Type) :=
| Default
| Value (v : option A).
Arguments Default {A}.
Arguments Value {A} v.

Definition resolve {A} (dflt : A) (c : column A) : option A :=
  match c with
  | Default => Some dflt
  | Value v => v
  end.

(** What the server supplies to a statement: [gen_random_uuid()] and
    [NOW()]. *)
Record session := {
  gen_random_uuid : uuid;
  now : timestamptz
}.

Record orgs_insert := {
  oi_id : column uuid;
  oi_name : option string;
  oi_created_at : column timestamptz
}.

Record documents_insert := {
  di_id : column uuid;
  di_org_id : option uuid;
  di_uploaded_by : option uuid;
  di_storage_bucket : column string;
  di_storage_path : option string;
  di_filename : option string;
  di_mime_type : option string;
  di_size_bytes : option Z;
  di_status : column string;
  di_error_message : option string;
  di_created_at : column timestamptz;
  di_updated_at : column timestamptz
}.

Record document_chunks_insert := {
  ci_id : column uuid;
  ci_org_id : option uuid;
  ci_document_id : option uuid;
  ci_chunk_index : option Z;
  ci_text : option string;
  ci_metadata : column jsonb;
  ci_embedding : option vector;
  ci_created_at : column timestamptz
}.

(** [CHECK (status IN ('uploaded', 'processing', 'indexed', 'failed'))] *)
Definition document_statuses : list string :=
  ["uploaded"; "processing"; "indexed"; "failed"]%string.

Definition documents_status_check (status : option string) : bool :=
  Sql.check_passes (Sql.in_list String.eqb status document_statuses).

Definition has_org (db : database) (id : uuid) : bool :=
  existsb (fun o => N.eqb (org_id o) id) (orgs db).

Definition has_document (docs : list documents_row) (id : uuid) : bool :=
  existsb (fun d => N.eqb (doc_id d) id) docs.

Definition has_chunk (chunks : list document_chunks_row) (id : uuid)
  : bool :=
  existsb (fun c => N.eqb (dc_id c) id) chunks.

Fixpoint distinct (ids : list uuid) : bool :=
  match ids with
  | [] => true
  | x :: r => negb (existsb (N.eqb x) r) && distinct r
  end.

(** The row an INSERT builds, or NULL in a NOT NULL column. *)
Definition orgs_new_row (s : session) (i : orgs_insert) : option orgs_row :=
  match resolve (gen_random_uuid s) (oi_id i), oi_name i with
  | Some id, Some name =>
      Some {| org_id := id; org_name := name;
              org_created_at := resolve (now s) (oi_created_at i) |}
  | _, _ => None
  end.

Definition documents_new_row (s : session) (i : documents_insert)
  : option documents_row :=
  match resolve (gen_random_uuid s) (di_id i), di_org_id i,
        di_storage_path i, di_filename i, di_mime_type i, di_size_bytes i
  with
  | Some id, Some org, Some path, Some filename, Some mime, Some size =>
      Some {| doc_id := id;
              doc_org_id := org;
              doc_uploaded_by := di_uploaded_by i;
              doc_storage_bucket :=
                resolve "docs"%string (di_storage_bucket i);
              doc_storage_path := path;
              doc_filename := filename;
              doc_mime_type := mime;
              doc_size_bytes := size;
              doc_status := resolve "uploaded"%string (di_status i);
              doc_error_message := di_error_message i;
              doc_created_at := resolve (now s) (di_created_at i);
              doc_updated_at := resolve (now s) (di_updated_at i) |}
  | _, _, _, _, _, _ => None
  end.

Definition document_chunks_new_row (s : session)
    (i : document_chunks_insert) : option document_chunks_row :=
  match resolve (gen_random_uuid s) (ci_id i), ci_org_id i,
        ci_document_id i, ci_chunk_index i, ci_text i
  with
  | Some id, Some org, Some doc, Some idx, Some text =>
      Some {| dc_id := id;
              dc_org_id := org;
              dc_document_id := doc;
              dc_chunk_index := idx;
              dc_text := text;
              dc_metadata := resolve "{}"%string (ci_metadata i);
              dc_embedding := ci_embedding i;
              dc_created_at := resolve (now s) (ci_created_at i) |}
  | _, _, _, _, _ => None
  end.

Definition insert_orgs (s : session) (i : orgs_insert) (db : database)
  : Sql.error + database :=
  match orgs_new_row s i with
  | None => inl Sql.NotNullViolation
  | Some row =>
      if has_org db (org_id row) then inl Sql.UniqueViolation
      else inr {| orgs := orgs db ++ [row];
                  documents := documents db;
                  document_chunks := document_chunks db |}
  end.

Definition insert_documents (s : session) (i : documents_insert)
    (db : database) : Sql.error + database :=
  match documents_new_row s i with
  | None => inl Sql.NotNullViolation
  | Some row =>
      if negb (documents_status_check (doc_status row))
      then inl Sql.CheckViolation
      else if has_document (documents db) (doc_id row)
      then inl Sql.UniqueViolation
      else if negb (has_org db (doc_org_id row))
      then inl Sql.ForeignKeyViolation
      else inr {| orgs := orgs db;
                  documents := documents db ++ [row];
                  document_chunks := document_chunks db |}
  end.

Definition insert_document_chunks (s : session)
    (i : document_chunks_insert) (db : database) : Sql.error + database :=
  match document_chunks_new_row s i with
  | None => inl Sql.NotNullViolation
  | Some row =>
      if has_chunk (document_chunks db) (dc_id row)
      then inl Sql.UniqueViolation
      else if negb (has_org db (dc_org_id row))
              || negb (has_document (documents db) (dc_document_id row))
      then inl Sql.ForeignKeyViolation
      else inr {| orgs := orgs db;
                  documents := documents db;
                  document_chunks := document_chunks db ++ [row] |}
  end.

(** The trigger [update_documents_updated_at]: before each row update,
    [NEW.updated_at = NOW()]. *)
Definition update_updated_at (s : session) (new : documents_row)
  : documents_row :=
  {| doc_id := doc_id new;
     doc_org_id := doc_org_id new;
     doc_uploaded_by := doc_uploaded_by new;
     doc_storage_bucket := doc_storage_bucket new;
     doc_storage_path := doc_storage_path new;
     doc_filename := doc_filename new;
     doc_mime_type := doc_mime_type new;
     doc_size_bytes := doc_size_bytes new;
     doc_status := doc_status new;
     doc_error_message := doc_error_message new;
     doc_created_at := doc_created_at new;
     doc_updated_at := Some (now s) |}.

(** [UPDATE documents SET ... WHERE id = ...]: [set] computes the new
    values of a row from the old ones; the constraints are checked on the
    table that results. *)
Definition update_documents (s : session) (id : uuid)
    (set : documents_row -> documents_row) (db : database)
  : Sql.error + database :=
  let docs :=
    map (fun d =>
           if N.eqb (doc_id d) id then update_updated_at s (set d) else d)
      (documents db) in
  if negb (forallb (fun d => documents_status_check (doc_status d)) docs)
  then inl Sql.CheckViolation
  else if negb (distinct (map doc_id docs))
  then inl Sql.UniqueViolation
  else if negb (forallb (fun d => has_org db (doc_org_id d)) docs)
          || negb (forallb (fun c => has_document docs (dc_document_id c))
                     (document_chunks db))
  then inl Sql.ForeignKeyViolation
  else inr {| orgs := orgs db;
              documents := docs;
              document_chunks := document_chunks db |}.

(** [UPDATE document_chunks SET ... WHERE id = ...] *)
Definition update_document_chunks (id : uuid)
    (set : document_chunks_row -> document_chunks_row) (db : database)
  : Sql.error + database :=
  let chunks :=
    map (fun c => if N.eqb (dc_id c) id then set c else c)
      (document_chunks db) in
  if negb (distinct (map dc_id chunks))
  then inl Sql.UniqueViolation
  else if negb (forallb
                  (fun c => has_org db (dc_org_id c)
                            && has_document (documents db)
                                 (dc_document_id c))
                  chunks)
  then inl Sql.ForeignKeyViolation
  else inr {| orgs := orgs db;
              documents := documents db;
              document_chunks := chunks |}.

(** [DELETE FROM documents WHERE id = ...]: the chunks that reference a
    deleted document go with it, in the same statement
    ([REFERENCES documents(id) ON DELETE CASCADE]). *)
Definition delete_documents (id : uuid) (db : database) : database :=
  let deleted := filter (fun d => N.eqb (doc_id d) id) (documents db) in
  {| orgs := orgs db;
     documents := filter (fun d => negb (N.eqb (doc_id d) id)) (documents db);
     document_chunks :=
       filter (fun c => negb (has_document deleted (dc_document_id c)))
         (document_chunks db) |}.

Definition delete_document_chunks (id : uuid) (db : database) : database :=
  {| orgs := orgs db;
     documents := documents db;
     document_chunks :=
       filter (fun c => negb (N.eqb (dc_id c) id)) (document_chunks db) |}.

(** [DELETE FROM orgs WHERE id = ...]: documents and chunks of the
    organization are deleted by [REFERENCES orgs(id) ON DELETE CASCADE],
    and the chunks of a deleted document by the cascade above. *)
Definition delete_orgs (id : uuid) (db : database) : database :=
  let deleted :=
    filter (fun d => N.eqb (doc_org_id d) id) (documents db) in
  {| orgs := filter (fun o => negb (N.eqb (org_id o) id)) (orgs db);
     documents :=
       filter (fun d => negb (N.eqb (doc_org_id d) id)) (documents db);
     document_chunks :=
       filter
         (fun c => negb (N.eqb (dc_org_id c) id)
                   && negb (has_document deleted (dc_document_id c)))
         (document_chunks db) |}.

(** The statements that change the three tables. *)
Inductive statement :=
| InsertOrgs (i : orgs_insert)
| InsertDocuments (i : documents_insert)
| InsertDocumentChunks (i : document_chunks_insert)
| UpdateDocuments (id : uuid) (set : documents_row -> documents_row)
| UpdateDocumentChunks (id : uuid)
    (set : document_chunks_row -> document_chunks_row)
| DeleteDocuments (id : uuid)
| DeleteDocumentChunks (id : uuid)
| DeleteOrgs (id : uuid).

Definition exec (s : session) (st : statement) (db : database)
  : Sql.error + database :=
  match st with
  | InsertOrgs i => insert_orgs s i db
  | InsertDocuments i => insert_documents s i db
  | InsertDocumentChunks i => insert_document_chunks s i db
  | UpdateDocuments id set => update_documents s id set db
  | UpdateDocumentChunks id set => update_document_chunks id set db
  | DeleteDocuments id => inr (delete_documents id db)
  | DeleteDocumentChunks id => inr (delete_document_chunks id db)
  | DeleteOrgs id => inr (delete_orgs id db)
  end.

(** The states of the database: what a sequence of accepted statements
    makes of the empty tables.  A rejected statement changes nothing. *)
Inductive reachable : database -> Prop :=
| reach_empty : reachable empty_db
| reach_exec s st db db' :
    reachable db -> exec s st db = inr db' -> reachable db'.

(** Runs a list of statements, stopping at the first one rejected. *)
Fixpoint run (script : list (session * statement)) (db : database)
  : Sql.error + database :=
  match script with
  | [] => inr db
  | (s, st) :: rest =>
      match exec s st db with
      | inl e => inl e
      | inr db' => run rest db'
      end
  end.

(** No chunk is without its owning document record. *)
Definition no_dangling_chunk (db : database) : Prop :=
  forall c, In c (document_chunks db) ->
    exists d, In d (documents db) /\ doc_id d = dc_document_id c.

(** The status of a document is absent or one of the four values. *)
Definition status_constrained (d : documents_row) : Prop :=
  doc_status d = None \/
  exists st, doc_status d = Some st /\ In st document_statuses.

(** What the constraints of the schema maintain. *)
Definition consistent (db : database) : Prop :=
  NoDup (map doc_id (documents db)) /\
  no_dangling_chunk db /\
  (forall d, In d (documents db) -> status_constrained d).

End Store.

(* ================================================================== *)
(** * Feedback *)

Module Feedback.

(** A row of [chat_feedback]. *)
Record chat_feedback_row := {
  fb_id : uuid;
  fb_session_id : option uuid;
  fb_message_id : option uuid;
  fb_score : Z;
  fb_comment : option string;
  fb_created_at : timestamptz
}.

(** The constraint of the table: [check (score >= 1 and score <= 5)]. *)
Definition score_check (score : option Z) : bool :=
  Sql.check_passes
    (Sql.and3 (Sql.int_ge score (Some 1)) (Sql.int_le score (Some 5))).

(** The body that [submitFeedback(sessionId, score, comment)] posts. *)
Record submission := {
  session_id : uuid;
  message_id : option uuid;
  score : Z;
  comment : option string
}.

Inductive feedback_error := InvalidFeedback.

Definition feedback_row (s : Store.session) (f : submission)
  : chat_feedback_row :=
  {| fb_id := Store.gen_random_uuid s;
     fb_session_id := Some (session_id f);
     fb_message_id := message_id f;
     fb_score := score f;
     fb_comment := comment f;
     fb_created_at := Store.now s |}.

(** Modelled from the spec: [record_feedback] of the session and feedback
    store, which is back-end code and not among the sources.  The spec
    makes it a ledger operation that rejects a score outside [1,5] with
    [InvalidFeedback] and otherwise appends the feedback; the range test is
    the table's own CHECK constraint.  The result is the store after the
    call and what the caller gets back. *)
Definition record_feedback (s : Store.session) (f : submission)
    (store : list chat_feedback_row)
  : list chat_feedback_row * (feedback_error + chat_feedback_row) :=
  if score_check (Some (score f))
  then (store ++ [feedback_row s f], inr (feedback_row s f))
  else (store, inl InvalidFeedback).

End Feedback.

(* ================================================================== *)
(** * The answerer *)

Module Answerer.

Inductive role := User | Assistant.

Record source := {
  src_document : uuid;
  src_filename : string;
  src_excerpt : string
}.

Record chat_message := {
  msg_role : role;
  msg_content : string;
  msg_sources : list source
}.

(** The calls made to the external providers, in order. *)
Inductive provider_call :=
| Embed (text : string)
| Generate (context : list string) (question : string)
    (history : list chat_message).

Record reply := {
  answer_text : string;
  sources : list source
}.

Definition abstention : string :=
  "no explicit provision found in the regulatory corpus".

Definition unavailable : string := "temporarily unavailable".

Definition to_source (m : Search.migration_match) : source :=
  {| src_document := Search.mm_document_id m;
     src_filename := Search.mm_filename m;
     src_excerpt := Search.mm_text m |}.

(** The last [n] turns of a conversation. *)
Definition recent {A} (n : nat) (l : list A) : list A :=
  skipn (List.length l - n)%nat l.

Record outcome := {
  out_reply : reply;
  out_session : list chat_message;
  out_calls : list provider_call
}.

Section WithProviders.

Variable cosine_distance : vector -> vector -> Q.

(** The embedding provider on one text, and the generation provider;
    [None] is a time-out or an error. *)
Variable embed : string -> option vector.
Variable generate :
  list string -> string -> list chat_message -> option string.

(** Configuration: top-K, relevance threshold, turns of history. *)
Variable top_k : nat.
Variable relevance_threshold : Q.
Variable history_turns : nat.

Definition finish (session : list chat_message) (question : string)
    (r : reply) (calls : list provider_call) : outcome :=
  {| out_reply := r;
     out_session :=
       session
         ++ [ {| msg_role := User; msg_content := question;
                 msg_sources := [] |};
              {| msg_role := Assistant; msg_content := answer_text r;
                 msg_sources := sources r |} ];
     out_calls := calls |}.

(** Modelled from the spec: [answer(tenant, question,
    conversation_history)] of the retrieval-augmented answerer, which is
    back-end code and not among the sources.  It embeds the question,
    retrieves the top-K chunks above the threshold with the
    [match_documents] of the migration, abstains with the fixed statement
    and no source when nothing is retrieved, and otherwise asks the
    generation provider with the retrieved texts and the recent history;
    a provider failure gives the fixed unavailable answer.  Both turns
    are appended to the session in every case. *)
Definition answer (db : database) (tenant : uuid) (question : string)
    (session : list chat_message) : outcome :=
  let fail calls :=
    finish session question
      {| answer_text := unavailable; sources := [] |} calls in
  match embed question with
  | None => fail [Embed question]
  | Some query_vector =>
      match Search.match_documents_migration cosine_distance db
              (Some query_vector) (Some relevance_threshold)
              (Some (Z.of_nat top_k)) (Some tenant)
      with
      | inl _ => fail [Embed question]
      | inr [] =>
          finish session question
            {| answer_text := abstention; sources := [] |}
            [Embed question]
      | inr retrieved =>
          let context := map Search.mm_text retrieved in
          let history := recent history_turns session in
          let calls :=
            [Embed question; Generate context question history] in
          match generate context question history with
          | None => fail calls
          | Some text =>
              finish session question
                {| answer_text := text;
                   sources := map to_source retrieved |}
                calls
          end
      end
  end.

End WithProviders.
End Answerer.

(* ================================================================== *)
(** * The chat page: [handleSend] *)

Module Chat.

(** A JavaScript string is held as the bytes of its UTF-8 encoding. *)

Definition byte_is (c : ascii) (n : N) : bool := N.eqb (N_of_ascii c) n.

(** [s.trim()] is empty: [s] is made of white space and line terminators
    only (tab, line feed, vertical tab, form feed, carriage return, space,
    U+00A0, U+1680, U+2000 to U+200A, U+2028, U+2029, U+202F, U+205F,
    U+3000, U+FEFF). *)
Fixpoint blank (s : string) : bool :=
  match s with
  | EmptyString => true
  | String c r =>
      let n := N_of_ascii c in
      if ((9 <=? n) && (n <=? 13) || (n =? 32))%N then blank r
      else
        match r with
        | String c1 r1 =>
            if byte_is c 194 && byte_is c1 160 then blank r1
            else
              match r1 with
              | String c2 r2 =>
                  let n2 := N_of_ascii c2 in
                  if byte_is c 225 && byte_is c1 154 && byte_is c2 128
                     || byte_is c 226 && byte_is c1 128
                        && ((128 <=? n2) && (n2 <=? 138)
                            || (n2 =? 168) || (n2 =? 169) || (n2 =? 175))%N
                     || byte_is c 226 && byte_is c1 129 && byte_is c2 159
                     || byte_is c 227 && byte_is c1 128 && byte_is c2 128
                     || byte_is c 239 && byte_is c1 187 && byte_is c2 191
                  then blank r2
                  else false
              | EmptyString => false
              end
        | EmptyString => false
        end
  end.

Inductive sender := user | assistant.

(** A page locator: a number or a text. *)
Inductive locator :=
| Num (n : Z)
| Text (s : string).

Record source := {
  file : option string;
  page : locator;
  excerpt : option string
}.

(** [sources] is absent from a user's message. *)
Record message := {
  id : Z;
  type : sender;
  content : string;
  timestamp : string;
  sources : option (list source)
}.

(** The body of the back end's response, once parsed: every field may be
    missing. *)
Record response_source := {
  rs_filename : option string;
  rs_page : option locator;
  rs_excerpt : option string
}.

Record response := {
  answer : option string;
  answer_sources : option (list response_source)
}.

(** How the call to the back end ends: [fetch] or [response.json()]
    rejects, or the body is parsed ([None] is a body that is [null]). *)
Inductive call_result :=
| Rejected
| Resolved (data : option response).

Record request := {
  req_message : string;
  conversation_history : list (sender * string)
}.

(** [Date.now()] and [new Date().toISOString()] at one instant. *)
Record clock := {
  date_now : Z;
  iso_string : string
}.

Record state := {
  messages : list message;
  inputValue : string;
  isTyping : bool
}.

Definition connection_error : string :=
  "Bağlantı hatası oluştu. Lütfen tekrar deneyin.".

Definition generic_error : string := "Bir hata oluştu.".

(** [x || d] on an optional string: the empty string is falsy. *)
Definition string_or (x : option string) (d : string) : string :=
  match x with
  | Some EmptyString | None => d
  | Some s => s
  end.

(** [s.page || '-'] *)
Definition page_or_dash (p : option locator) : locator :=
  match p with
  | None | Some (Num 0) | Some (Text EmptyString) => Text "-"
  | Some l => l
  end.

Definition shown_source (s : response_source) : source :=
  {| file := rs_filename s;
     page := page_or_dash (rs_page s);
     excerpt := rs_excerpt s |}.

(** [data.sources?.map(...) || []] *)
Definition shown_sources (l : option (list response_source))
  : list source :=
  match l with
  | Some rs => map shown_source rs
  | None => []
  end.

Definition userMessage (t : clock) (st : state) : message :=
  {| id := date_now t;
     type := user;
     content := inputValue st;
     timestamp := iso_string t;
     sources := None |}.

Definition is_greeting (m : message) : bool :=
  match type m with
  | assistant => id m =? 1
  | user => false
  end.

Definition chat_request (t : clock) (st : state) : request :=
  {| req_message := content (userMessage t st);
     conversation_history :=
       map (fun m => (type m, content m))
         (filter (fun m => negb (is_greeting m)) (messages st)) |}.

Definition aiResponse (t : clock) (data : response) : message :=
  {| id := date_now t + 1;
     type := assistant;
     content := string_or (answer data) generic_error;
     timestamp := iso_string t;
     sources := Some (shown_sources (answer_sources data)) |}.

(** The message of the [catch] branch. *)
Definition errorResponse (t : clock) : message :=
  {| id := date_now t + 1;
     type := assistant;
     content := connection_error;
     timestamp := iso_string t;
     sources := Some [] |}.

Definition assistant_message (t : clock) (r : call_result) : message :=
  match r with
  | Resolved (Some data) => aiResponse t data
  | Resolved None | Rejected => errorResponse t
  end.

(** [handleSend], with the back end as a function of the request: [t0] is
    the clock when the user sends, [t1] when the call has ended. *)
Definition handleSend (t0 t1 : clock) (backend : request -> call_result)
    (st : state) : state :=
  if blank (inputValue st) then st
  else
    let sent :=
      {| messages := messages st ++ [userMessage t0 st];
         inputValue := "";
         isTyping := true |} in
    let result := backend (chat_request t0 st) in
    {| messages := messages sent ++ [assistant_message t1 result];
       inputValue := inputValue sent;
       isTyping := false |}.

(** The response carries no answer: [data.answer] is missing or empty. *)
Definition no_answer (data : response) : bool :=
  match answer data with
  | Some EmptyString | None => true
  | Some _ => false
  end.

(** The call has not produced an answer. *)
Definition failed (r : call_result) : bool :=
  match r with
  | Rejected | Resolved None => true
  | Resolved (Some data) => no_answer data
  end.

End Chat.


(* ================================================================== *)
(** * Small databases on which the functions are run *)

Module Examples.
Import Store.

Definition at_time (t : N) : session :=
  {| gen_random_uuid := 0%N; now := Z.of_N t |}.

Definition org (id : uuid) (name : string) : statement :=
  InsertOrgs
    {| oi_id := Value (Some id); oi_name := Some name;
       oi_created_at := Default |}.

Definition document_with (status : column string) (id owner : uuid)
    (filename : string) : statement :=
  InsertDocuments
    {| di_id := Value (Some id);
       di_org_id := Some owner;
       di_uploaded_by := None;
       di_storage_bucket := Default;
       di_storage_path := Some filename;
       di_filename := Some filename;
       di_mime_type := Some "application/pdf"%string;
       di_size_bytes := Some 1024;
       di_status := status;
       di_error_message := None;
       di_created_at := Default;
       di_updated_at := Default |}.

Definition document : uuid -> uuid -> string -> statement :=
  document_with Default.

Definition chunk (id owner doc : uuid) (text : string) (e : option vector)
  : statement :=
  InsertDocumentChunks
    {| ci_id := Value (Some id);
       ci_org_id := Some owner;
       ci_document_id := Some doc;
       ci_chunk_index := Some 0;
       ci_text := Some text;
       ci_metadata := Default;
       ci_embedding := e;
       ci_created_at := Default |}.

Definition built (script : list (session * statement)) : database :=
  match run script empty_db with
  | inr db => db
  | inl _ => empty_db
  end.

Definition east : vector := [1%Q; 0%Q].
Definition north : vector := [0%Q; 1%Q].

Local Open Scope N_scope.
Local Open Scope string_scope.

(** Two organizations, each with one document of one chunk; the two
    chunks have the same embedding. *)
Definition two_tenants_script : list (session * statement) :=
  [ (at_time 100, org 1 "Tapu");
    (at_time 101, org 2 "Kadastro");
    (at_time 102, document 21 1 "tapu.pdf");
    (at_time 103, document 22 2 "kadastro.pdf");
    (at_time 104, chunk 11 1 21 "tapu" (Some east));
    (at_time 105, chunk 12 2 22 "kadastro" (Some east)) ].

Definition two_tenants : database := built two_tenants_script.



(** A chunk filed under organization 1 whose document belongs to
    organization 2. *)
Definition mixed_org_script : list (session * statement) :=
  [ (at_time 100, org 1 "Tapu");
    (at_time 101, org 2 "Kadastro");
    (at_time 102, document 21 2 "kadastro.pdf");
    (at_time 103, chunk 11 1 21 "kadastro" (Some east)) ].

Definition mixed_org : database := built mixed_org_script.

(** A document inserted with an explicit status, and one inserted with a
    NULL status. *)
Definition indexed_at_birth_script : list (session * statement) :=
  [ (at_time 100, org 1 "Tapu");
    (at_time 101,
     document_with (Value (Some "indexed")) 21 1 "tapu.pdf") ].

Definition null_status_script : list (session * statement) :=
  [ (at_time 100, org 1 "Tapu");
    (at_time 101, document_with (Value None) 21 1 "tapu.pdf") ].

End Examples.

Module ChatExamples.

Local Open Scope string_scope.

Definition greeting : Chat.message :=
  {| Chat.id := 1;
     Chat.type := Chat.assistant;
     Chat.content := "Merhaba!";
     Chat.timestamp := "2024-01-01T00:00:00.000Z";
     Chat.sources := Some [] |}.

(** The user has typed a question and nothing has been sent yet. *)
Definition asking : Chat.state :=
  {| Chat.messages := [greeting];
     Chat.inputValue := "Tapu harci nedir?";
     Chat.isTyping := false |}.

Definition sent_at : Chat.clock :=
  {| Chat.date_now := 1700000000000;
     Chat.iso_string := "2023-11-14T22:13:20.000Z" |}.

Definition answered_at : Chat.clock :=
  {| Chat.date_now := 1700000002000;
     Chat.iso_string := "2023-11-14T22:13:22.000Z" |}.

(** A response without answer that still lists a source. *)
Definition sources_without_answer : Chat.response :=
  {| Chat.answer := None;
     Chat.answer_sources :=
       Some [ {| Chat.rs_filename := Some "tapu.pdf";
                 Chat.rs_page := None;
                 Chat.rs_excerpt := Some "harc" |} ] |}.

(** A back end that is down, and one whose response has no answer. *)
Definition unreachable (_ : Chat.request) : Chat.call_result :=
  Chat.Rejected.

Definition answerless (_ : Chat.request) : Chat.call_result :=
  Chat.Resolved (Some sources_without_answer).

(** Providers for the answerer: every question is embedded as [north], and
    the generation provider would answer anything. *)
Definition embed_north (_ : string) : option vector := Some Examples.north.

Definition talkative (_ : list string) (_ : string)
    (_ : list Answerer.chat_message) : option string :=
  Some "an answer".


Definition four_stars : Feedback.submission :=
  {| Feedback.session_id := 7%N;
     Feedback.message_id := None;
     Feedback.score := 4;
     Feedback.comment := Some "iyi" |}.

End ChatExamples.

(* ================================================================== *)
(** * Keys and owners *)

Module Integrity.

(** PRIMARY KEY: no two rows of a table have the same id. *)
Definition keyed (db : database) : Prop :=
  NoDup (map org_id (orgs db)) /\
  NoDup (map doc_id (documents db)) /\
  NoDup (map dc_id (document_chunks db)).

(** [REFERENCES orgs(id)]: the organization of every document and of every
    chunk is a row of [orgs]. *)
Definition owned (db : database) : Prop :=
  (forall d, In d (documents db) ->
     exists o, In o (orgs db) /\ org_id o = doc_org_id d) /\
  (forall c, In c (document_chunks db) ->
     exists o, In o (orgs db) /\ org_id o = dc_org_id c).

Definition well_keyed (db : database) : Prop := keyed db /\ owned db.

End Integrity.

(* ================================================================== *)
(** * Row level security *)

(** Row level security is enabled on every table of the schema.  For a role
    that is subject to it, a command reaches only the rows that a policy of
    that command lets through, and a table without policy for the command
    gives no row.  The functions of the schema are not SECURITY DEFINER, so
    their queries run under the policies of the caller. *)

Module Rls.

Record profiles_row := {
  pr_id : uuid;
  pr_org_id : option uuid;
  pr_full_name : option string;
  pr_role : option string;
  pr_created_at : option timestamptz
}.

(** [x IN (SELECT ...)]: true when a row equals [x], NULL when none does
    but [x] or a row is NULL, false otherwise (so false on no row). *)
Definition in_subquery (x : option uuid) (rows : list (option uuid))
  : Sql.cond :=
  match rows with
  | [] => Some false
  | _ :: _ =>
      match x with
      | None => None
      | Some v =>
          if existsb
               (fun r => match r with Some w => N.eqb v w | None => false end)
               rows
          then Some true
          else if existsb
                    (fun r => match r with None => true | Some _ => false end)
                    rows
          then None
          else Some false
      end
  end.

Section Policies.

Variable profiles : list profiles_row.

(** [auth.uid()]: the id of the user of the session, NULL without one. *)
Variable uid : option uuid.

(** "Users can view own profile": [USING (auth.uid() = id)]. *)
Definition view_own_profile (p : profiles_row) : Sql.cond :=
  Sql.strict2 N.eqb uid (Some (pr_id p)).

Definition visible_profiles : list profiles_row :=
  filter (fun p => Sql.holds (view_own_profile p)) profiles.

(** [SELECT org_id FROM profiles WHERE id = auth.uid()] *)
Definition own_orgs : list (option uuid) :=
  map pr_org_id
    (filter (fun p => Sql.holds (Sql.strict2 N.eqb (Some (pr_id p)) uid))
       visible_profiles).

(** [SELECT org_id FROM profiles WHERE id = auth.uid() AND role = 'admin'] *)
Definition admin_orgs : list (option uuid) :=
  map pr_org_id
    (filter
       (fun p =>
          Sql.holds
            (Sql.and3 (Sql.strict2 N.eqb (Some (pr_id p)) uid)
               (Sql.strict2 String.eqb (pr_role p) (Some "admin"%string))))
       visible_profiles).

(** "Users can view org documents" and "Users can insert org documents". *)
Definition view_org_documents (d : documents_row) : Sql.cond :=
  in_subquery (Some (doc_org_id d)) own_orgs.


(** "Admins can delete org documents". *)
Definition delete_org_documents (d : documents_row) : Sql.cond :=
  in_subquery (Some (doc_org_id d)) admin_orgs.

(** "Users can view org chunks". *)
Definition view_org_chunks (c : document_chunks_row) : Sql.cond :=
  in_subquery (Some (dc_org_id c)) own_orgs.

(** What a query of the role reads: [orgs] has no policy. *)
Definition visible (db : database) : database :=
  {| orgs := [];
     documents :=
       filter (fun d => Sql.holds (view_org_documents d)) (documents db);
     document_chunks :=
       filter (fun c => Sql.holds (view_org_chunks c))
         (document_chunks db) |}.



(** [DELETE FROM documents WHERE id = ...] by the role: the rows it may
    read and may delete; the cascade on the chunks is not subject to the
    policies. *)
Definition delete_documents_as (id : uuid) (db : database) : database :=
  let target d :=
    N.eqb (doc_id d) id
    && Sql.holds (view_org_documents d)
    && Sql.holds (delete_org_documents d) in
  let deleted := filter target (documents db) in
  {| orgs := orgs db;
     documents := filter (fun d => negb (target d)) (documents db);
     document_chunks :=
       filter
         (fun c => negb (Store.has_document deleted (dc_document_id c)))
         (document_chunks db) |}.

End Policies.

(** The user of the session is this profile. *)
Definition is_user (uid : option uuid) (p : profiles_row) : Prop :=
  uid = Some (pr_id p).

(** The user of the session is a member of organization [o]. *)
Definition member_of (profiles : list profiles_row) (uid : option uuid)
    (o : uuid) : Prop :=
  exists p, In p profiles /\ is_user uid p /\ pr_org_id p = Some o.

(** The user of the session is an admin of organization [o]. *)
Definition admin_of (profiles : list profiles_row) (uid : option uuid)
    (o : uuid) : Prop :=
  exists p, In p profiles /\ is_user uid p /\ pr_org_id p = Some o /\
            pr_role p = Some "admin"%string.

End Rls.

(* ================================================================== *)
(** * The tables of the chat history and of the feedback *)

Module ChatStore.
Import Store.

Record chat_sessions_row := {
  cs_id : uuid;
  cs_org_id : uuid;
  cs_user_id : option uuid;
  cs_title : option string;
  cs_created_at : option timestamptz;
  cs_updated_at : option timestamptz
}.

Record chat_messages_row := {
  cm_id : uuid;
  cm_session_id : uuid;
  cm_role : string;
  cm_content : string;
  cm_sources : option jsonb;
  cm_created_at : option timestamptz
}.

Record chat_database := {
  chat_sessions : list chat_sessions_row;
  chat_messages : list chat_messages_row;
  chat_feedback : list Feedback.chat_feedback_row
}.

Definition empty_chat : chat_database :=
  {| chat_sessions := []; chat_messages := []; chat_feedback := [] |}.

Record chat_sessions_insert := {
  si_id : column uuid;
  si_org_id : option uuid;
  si_user_id : option uuid;
  si_title : option string;
  si_created_at : column timestamptz;
  si_updated_at : column timestamptz
}.

Record chat_messages_insert := {
  mi_id : column uuid;
  mi_session_id : option uuid;
  mi_role : option string;
  mi_content : option string;
  mi_sources : column jsonb;
  mi_created_at : column timestamptz
}.

Record chat_feedback_insert := {
  fi_id : column uuid;
  fi_session_id : option uuid;
  fi_message_id : option uuid;
  fi_score : option Z;
  fi_comment : option string;
  fi_created_at : column timestamptz
}.

(** [CHECK (role IN ('user', 'assistant'))] *)
Definition message_roles : list string := ["user"; "assistant"]%string.

Definition role_check (role : option string) : bool :=
  Sql.check_passes (Sql.in_list String.eqb role message_roles).

Definition has_session (c : chat_database) (id : uuid) : bool :=
  existsb (fun s => N.eqb (cs_id s) id) (chat_sessions c).

Definition chat_sessions_new_row (s : session) (i : chat_sessions_insert)
  : option chat_sessions_row :=
  match resolve (gen_random_uuid s) (si_id i), si_org_id i with
  | Some id, Some org =>
      Some {| cs_id := id;
              cs_org_id := org;
              cs_user_id := si_user_id i;
              cs_title := si_title i;
              cs_created_at := resolve (now s) (si_created_at i);
              cs_updated_at := resolve (now s) (si_updated_at i) |}
  | _, _ => None
  end.

Definition chat_messages_new_row (s : session) (i : chat_messages_insert)
  : option chat_messages_row :=
  match resolve (gen_random_uuid s) (mi_id i), mi_session_id i,
        mi_role i, mi_content i
  with
  | Some id, Some sid, Some role, Some content =>
      Some {| cm_id := id;
              cm_session_id := sid;
              cm_role := role;
              cm_content := content;
              cm_sources := resolve "[]"%string (mi_sources i);
              cm_created_at := resolve (now s) (mi_created_at i) |}
  | _, _, _, _ => None
  end.

Definition chat_feedback_new_row (s : session) (i : chat_feedback_insert)
  : option Feedback.chat_feedback_row :=
  match resolve (gen_random_uuid s) (fi_id i), fi_score i,
        resolve (now s) (fi_created_at i)
  with
  | Some id, Some score, Some created =>
      Some {| Feedback.fb_id := id;
              Feedback.fb_session_id := fi_session_id i;
              Feedback.fb_message_id := fi_message_id i;
              Feedback.fb_score := score;
              Feedback.fb_comment := fi_comment i;
              Feedback.fb_created_at := created |}
  | _, _, _ => None
  end.

(** [INSERT INTO chat_sessions]; [db] holds the organizations at the time
    of the statement. *)
Definition insert_chat_sessions (db : database) (s : session)
    (i : chat_sessions_insert) (c : chat_database)
  : Sql.error + chat_database :=
  match chat_sessions_new_row s i with
  | None => inl Sql.NotNullViolation
  | Some row =>
      if has_session c (cs_id row) then inl Sql.UniqueViolation
      else if negb (has_org db (cs_org_id row))
      then inl Sql.ForeignKeyViolation
      else inr {| chat_sessions := chat_sessions c ++ [row];
                  chat_messages := chat_messages c;
                  chat_feedback := chat_feedback c |}
  end.

Definition insert_chat_messages (s : session) (i : chat_messages_insert)
    (c : chat_database) : Sql.error + chat_database :=
  match chat_messages_new_row s i with
  | None => inl Sql.NotNullViolation
  | Some row =>
      if negb (role_check (Some (cm_role row))) then inl Sql.CheckViolation
      else if existsb (fun m => N.eqb (cm_id m) (cm_id row))
                (chat_messages c)
      then inl Sql.UniqueViolation
      else if negb (has_session c (cm_session_id row))
      then inl Sql.ForeignKeyViolation
      else inr {| chat_sessions := chat_sessions c;
                  chat_messages := chat_messages c ++ [row];
                  chat_feedback := chat_feedback c |}
  end.

Definition insert_chat_feedback (s : session) (i : chat_feedback_insert)
    (c : chat_database) : Sql.error + chat_database :=
  match chat_feedback_new_row s i with
  | None => inl Sql.NotNullViolation
  | Some row =>
      if negb (Feedback.score_check (Some (Feedback.fb_score row)))
      then inl Sql.CheckViolation
      else if existsb
                (fun f => N.eqb (Feedback.fb_id f) (Feedback.fb_id row))
                (chat_feedback c)
      then inl Sql.UniqueViolation
      else if match Feedback.fb_session_id row with
              | Some sid => negb (has_session c sid)
              | None => false
              end
      then inl Sql.ForeignKeyViolation
      else inr {| chat_sessions := chat_sessions c;
                  chat_messages := chat_messages c;
                  chat_feedback := chat_feedback c ++ [row] |}
  end.

(** The messages and the feedback that reference a deleted session go with
    it ([REFERENCES chat_sessions(id) ON DELETE CASCADE]). *)
Definition cascade (deleted : list chat_sessions_row) (c : chat_database)
    (kept : list chat_sessions_row) : chat_database :=
  let gone id := existsb (fun s => N.eqb (cs_id s) id) deleted in
  {| chat_sessions := kept;
     chat_messages :=
       filter (fun m => negb (gone (cm_session_id m))) (chat_messages c);
     chat_feedback :=
       filter
         (fun f =>
            match Feedback.fb_session_id f with
            | Some sid => negb (gone sid)
            | None => true
            end)
         (chat_feedback c) |}.

(** [DELETE FROM chat_sessions WHERE id = ...] *)
Definition delete_chat_sessions (id : uuid) (c : chat_database)
  : chat_database :=
  cascade (filter (fun s => N.eqb (cs_id s) id) (chat_sessions c)) c
    (filter (fun s => negb (N.eqb (cs_id s) id)) (chat_sessions c)).

(** What [DELETE FROM orgs WHERE id = ...] does to the chat history
    ([org_id ... REFERENCES orgs(id) ON DELETE CASCADE]). *)
Definition delete_orgs_sessions (org : uuid) (c : chat_database)
  : chat_database :=
  cascade (filter (fun s => N.eqb (cs_org_id s) org) (chat_sessions c)) c
    (filter (fun s => negb (N.eqb (cs_org_id s) org)) (chat_sessions c)).

Inductive statement :=
| InsertChatSessions (db : database) (i : chat_sessions_insert)
| InsertChatMessages (i : chat_messages_insert)
| InsertChatFeedback (i : chat_feedback_insert)
| DeleteChatSessions (id : uuid)
| DeleteOrgsSessions (org : uuid).

Definition exec (s : session) (st : statement) (c : chat_database)
  : Sql.error + chat_database :=
  match st with
  | InsertChatSessions db i => insert_chat_sessions db s i c
  | InsertChatMessages i => insert_chat_messages s i c
  | InsertChatFeedback i => insert_chat_feedback s i c
  | DeleteChatSessions id => inr (delete_chat_sessions id c)
  | DeleteOrgsSessions org => inr (delete_orgs_sessions org c)
  end.

Inductive reachable : chat_database -> Prop :=
| reach_empty : reachable empty_chat
| reach_exec s st c c' :
    reachable c -> exec s st c = inr c' -> reachable c'.

(** Runs a list of statements, stopping at the first one rejected. *)
Fixpoint run (script : list (session * statement)) (c : chat_database)
  : Sql.error + chat_database :=
  match script with
  | [] => inr c
  | (s, st) :: rest =>
      match exec s st c with
      | inl e => inl e
      | inr c' => run rest c'
      end
  end.

(** What the constraints maintain: roles, scores and references. *)
Definition constrained (c : chat_database) : Prop :=
  (forall m, In m (chat_messages c) ->
     In (cm_role m) message_roles /\
     exists s, In s (chat_sessions c) /\ cs_id s = cm_session_id m) /\
  (forall f, In f (chat_feedback c) ->
     1 <= Feedback.fb_score f <= 5 /\
     (Feedback.fb_session_id f = None \/
      exists s, In s (chat_sessions c) /\
                Some (cs_id s) = Feedback.fb_session_id f)).

End ChatStore.

(* ================================================================== *)
(** * A conversation on the chat page *)

Module Conversation.
Import Chat.

Local Open Scope string_scope.



(** What the user does: edit the text area (or pick a suggestion), which
    is [setInputValue], and send. *)
Inductive event :=
| Input (text : string)
| Send (t0 t1 : clock) (backend : request -> call_result).

Definition step (st : state) (e : event) : state :=
  match e with
  | Input text =>
      {| messages := messages st;
         inputValue := text;
         isTyping := isTyping st |}
  | Send t0 t1 backend => handleSend t0 t1 backend st
  end.

Definition run (events : list event) (st : state) : state :=
  fold_left step events st.



(** A character that leaves a mark: a printable ASCII character other than
    the space. *)
Definition visible (c : ascii) : bool :=
  ((33 <=? N_of_ascii c) && (N_of_ascii c <=? 126))%N.

(** A character of the white space of ASCII. *)
Definition ascii_space (c : ascii) : bool :=
  ((9 <=? N_of_ascii c) && (N_of_ascii c <=? 13) || (N_of_ascii c =? 32))%N.

Fixpoint some_char (p : ascii -> bool) (s : string) : bool :=
  match s with
  | EmptyString => false
  | String c r => p c || some_char p r
  end.

Fixpoint every_char (p : ascii -> bool) (s : string) : bool :=
  match s with
  | EmptyString => true
  | String c r => p c && every_char p r
  end.


End Conversation.

(* ================================================================== *)
(** * The documents page *)

Module Documents.

Local Open Scope string_scope.

(** ** Numbers as text *)

Definition digit (n : N) : ascii := ascii_of_N (48 + n mod 10).

(** The decimal digits of a natural number, most significant first; the
    fuel is the number of bits of the number, more than its digits. *)
Fixpoint digits_in (fuel : nat) (n : N) : string :=
  match fuel with
  | O => String (digit n) ""
  | S fuel' =>
      if (n <? 10)%N then String (digit n) ""
      else digits_in fuel' (n / 10) ++ String (digit n) ""
  end.

Definition digits (n : N) : string := digits_in (N.to_nat (N.size n)) n.

(** The number that a text of decimal digits denotes. *)
Definition digit_value (c : ascii) : N := N_of_ascii c - 48.

Fixpoint value_from (acc : N) (s : string) : N :=
  match s with
  | EmptyString => acc
  | String c r => value_from (10 * acc + digit_value c) r
  end.

Definition value (s : string) : N := value_from 0 s.

(** [String(z)] for an integer. *)
Definition number_text (z : Z) : string :=
  if (z <? 0)%Z then "-" ++ digits (Z.to_N (- z)) else digits (Z.to_N z).

Fixpoint zeros (k : nat) : string :=
  match k with
  | O => ""
  | S k' => String "0" (zeros k')
  end.

(** [x.toFixed(f)] for [x = num / den], not negative and below 10^21: [n]
    is the integer for which [n / 10^f] is nearest to [x], the larger one
    of two; its digits are padded with zeros on the left to [f + 1] places
    and the point is put before the last [f]. *)
Definition toFixed (f : nat) (num den : N) : string :=
  let n := ((2 * num * 10 ^ N.of_nat f + den) / (2 * den))%N in
  let m := digits n in
  match f with
  | O => m
  | S _ =>
      let m :=
        if (String.length m <=? f)%nat
        then zeros (f + 1 - String.length m) ++ m
        else m in
      let k := String.length m in
      substring 0 (k - f) m ++ "." ++ substring (k - f) f m
  end.

(** [formatSize]: [bytes] is an integer. *)
Definition formatSize (bytes : Z) : string :=
  if (bytes =? 0)%Z then "0 KB"
  else if (bytes <? 1024)%Z then number_text bytes ++ " B"
  else if (bytes <? 1024 * 1024)%Z
  then toFixed 1 (Z.to_N bytes) 1024 ++ " KB"
  else toFixed 2 (Z.to_N bytes) (1024 * 1024) ++ " MB".

(** ** File names and dates *)

(** [s.split(sep)] for a separator of one character. *)
Fixpoint split (sep : ascii) (s : string) : list string :=
  match s with
  | EmptyString => [""]
  | String c r =>
      if Ascii.eqb c sep then "" :: split sep r
      else
        match split sep r with
        | h :: t => String c h :: t
        | [] => [String c ""]
        end
  end.

(** [name.split('.').pop()] *)
Definition file_type (name : string) : string :=
  List.last (split "." name) "".

(** [iso.split('T')[0]] *)
Definition day (iso : string) : string :=
  List.hd "" (split "T" iso).

Definition is_dot (c : ascii) : bool := Ascii.eqb c ".".

(** ** The list of documents *)

(** An id is the text of a uuid, or a number when [Date.now()] stands in. *)
Inductive key :=
| KeyText (s : string)
| KeyNumber (n : Z).

Record listed := {
  l_id : key;
  l_name : string;
  l_type : string;
  l_size : string;
  l_status : string;
  l_date : string;
  l_chunks : Z
}.

Record file := {
  f_name : string;
  f_size : Z
}.

(** The body of the response to an upload: [success], and [document] with
    its [id] and [status], each of which may be missing. *)
Record upload_document := {
  ud_id : option key;
  ud_status : option string
}.

Record upload_response := {
  up_success : bool;
  up_document : option upload_document
}.

Inductive upload_result :=
| UploadRejected
| UploadResolved (data : option upload_response).

(** [data.document?.id || Date.now()] *)
Definition key_or_now (d : option upload_document) (t : Chat.clock) : key :=
  match d with
  | Some {| ud_id := Some (KeyText EmptyString) |}
  | Some {| ud_id := Some (KeyNumber 0) |}
  | Some {| ud_id := None |}
  | None => KeyNumber (Chat.date_now t)
  | Some {| ud_id := Some k |} => k
  end.

(** [data.document?.status || 'indexed'] *)
Definition status_or_indexed (d : option upload_document) : string :=
  match d with
  | Some {| ud_status := Some EmptyString |}
  | Some {| ud_status := None |}
  | None => "indexed"
  | Some {| ud_status := Some s |} => s
  end.

(** The entry that [handleFiles] puts in the list for an uploaded file. *)
Definition uploaded (f : file) (t : Chat.clock) (data : upload_response)
  : listed :=
  {| l_id := key_or_now (up_document data) t;
     l_name := f_name f;
     l_type := file_type (f_name f);
     l_size := formatSize (f_size f);
     l_status := status_or_indexed (up_document data);
     l_date := day (Chat.iso_string t);
     l_chunks := 0 |}.

(** One turn of the loop of [handleFiles]: the list after the upload of
    one file has ended. *)
Definition upload_one (docs : list listed)
    (u : file * Chat.clock * upload_result) : list listed :=
  let '(f, t, r) := u in
  match r with
  | UploadResolved (Some data) =>
      if up_success data then uploaded f t data :: docs else docs
  | UploadResolved None | UploadRejected => docs
  end.

(** [handleFiles]: the files are uploaded one after the other. *)
Definition handleFiles (uploads : list (file * Chat.clock * upload_result))
    (docs : list listed) : list listed :=
  fold_left upload_one uploads docs.

Definition succeeded (u : file * Chat.clock * upload_result) : bool :=
  match snd u with
  | UploadResolved (Some data) => up_success data
  | UploadResolved None | UploadRejected => false
  end.

Definition entry_of (u : file * Chat.clock * upload_result) : listed :=
  let '(f, t, r) := u in
  match r with
  | UploadResolved (Some data) => uploaded f t data
  | UploadResolved None | UploadRejected =>
      uploaded f t {| up_success := false; up_document := None |}
  end.

End Documents.

(* ================================================================== *)
(** * Signing in *)

Module App.

Local Open Scope string_scope.

Record account := {
  name : string;
  email : string;
  role : string
}.

(** The state of [App]: [isAuthenticated] and [user]. *)
Record auth := {
  isAuthenticated : bool;
  user : option account
}.

Definition signed_out : auth := {| isAuthenticated := false; user := None |}.

Definition login (userData : account) (_ : auth) : auth :=
  {| isAuthenticated := true; user := Some userData |}.

Definition logout (_ : auth) : auth :=
  {| isAuthenticated := false; user := None |}.

(** [handleSubmit] of the login page, once its delay has passed. *)
Definition handleSubmit (email password : string) (a : auth) : auth :=
  login {| name := "Demo Kullanıcı"; email := email; role := "Admin" |} a.

(** What happens to the state: the login form is submitted, or the user
    signs out from the side bar. *)
Inductive event :=
| Submit (email password : string)
| SignOut.

Definition step (a : auth) (e : event) : auth :=
  match e with
  | Submit email password => handleSubmit email password a
  | SignOut => logout a
  end.

Definition run (events : list event) : auth := fold_left step events signed_out.

End App.

(* ================================================================== *)
(** * More data on which the functions are run *)

Module MoreExamples.

Local Open Scope N_scope.
Local Open Scope string_scope.

(** A member of organization 1, an admin of organization 2 and a user
    whose profile has lost its organization. *)
Definition profiles : list Rls.profiles_row :=
  [ {| Rls.pr_id := 101; Rls.pr_org_id := Some 1;
       Rls.pr_full_name := None; Rls.pr_role := Some "member";
       Rls.pr_created_at := None |};
    {| Rls.pr_id := 102; Rls.pr_org_id := Some 2;
       Rls.pr_full_name := None; Rls.pr_role := Some "admin";
       Rls.pr_created_at := None |};
    {| Rls.pr_id := 103; Rls.pr_org_id := None;
       Rls.pr_full_name := None; Rls.pr_role := Some "member";
       Rls.pr_created_at := None |} ].

Definition third_document : Store.documents_insert :=
  {| Store.di_id := Store.Value (Some 23);
     Store.di_org_id := Some 1;
     Store.di_uploaded_by := Some 101;
     Store.di_storage_bucket := Store.Default;
     Store.di_storage_path := Some "1/harc.pdf";
     Store.di_filename := Some "harc.pdf";
     Store.di_mime_type := Some "application/pdf";
     Store.di_size_bytes := Some 2048%Z;
     Store.di_status := Store.Default;
     Store.di_error_message := None;
     Store.di_created_at := Store.Default;
     Store.di_updated_at := Store.Default |}.

Definition second_chunk : Store.document_chunks_insert :=
  {| Store.ci_id := Store.Value (Some 13);
     Store.ci_org_id := Some 1;
     Store.ci_document_id := Some 21;
     Store.ci_chunk_index := Some 1%Z;
     Store.ci_text := Some "devam";
     Store.ci_metadata := Store.Default;
     Store.ci_embedding := None;
     Store.ci_created_at := Store.Default |}.

(** The lifecycle step that marks a document as being processed, with an
    attempt to set [updated_at] by hand. *)
Definition start_processing (d : documents_row) : documents_row :=
  {| doc_id := doc_id d;
     doc_org_id := doc_org_id d;
     doc_uploaded_by := doc_uploaded_by d;
     doc_storage_bucket := doc_storage_bucket d;
     doc_storage_path := doc_storage_path d;
     doc_filename := doc_filename d;
     doc_mime_type := doc_mime_type d;
     doc_size_bytes := doc_size_bytes d;
     doc_status := Some "processing";
     doc_error_message := None;
     doc_created_at := doc_created_at d;
     doc_updated_at := Some 0%Z |}.

Definition accepted (r : Sql.error + database) : database :=
  match r with
  | inr db => db
  | inl _ => empty_db
  end.

Definition with_third_document : database :=
  accepted
    (Store.insert_documents (Examples.at_time 400) third_document
       Examples.two_tenants).

Definition with_second_chunk : database :=
  accepted
    (Store.insert_document_chunks (Examples.at_time 400) second_chunk
       Examples.two_tenants).

Definition processing_started : database :=
  accepted
    (Store.update_documents (Examples.at_time 400) 21 start_processing
       Examples.two_tenants).

(** A session with one message and one feedback. *)
Definition chat_script
  : list (Store.session * ChatStore.statement) :=
  [ (Examples.at_time 300,
     ChatStore.InsertChatSessions Examples.two_tenants
       {| ChatStore.si_id := Store.Value (Some 31);
          ChatStore.si_org_id := Some 1;
          ChatStore.si_user_id := Some 101;
          ChatStore.si_title := Some "Harc";
          ChatStore.si_created_at := Store.Default;
          ChatStore.si_updated_at := Store.Default |});
    (Examples.at_time 301,
     ChatStore.InsertChatMessages
       {| ChatStore.mi_id := Store.Value (Some 41);
          ChatStore.mi_session_id := Some 31;
          ChatStore.mi_role := Some "user";
          ChatStore.mi_content := Some "Tapu harci nedir?";
          ChatStore.mi_sources := Store.Default;
          ChatStore.mi_created_at := Store.Default |});
    (Examples.at_time 302,
     ChatStore.InsertChatFeedback
       {| ChatStore.fi_id := Store.Value (Some 51);
          ChatStore.fi_session_id := Some 31;
          ChatStore.fi_message_id := Some 41;
          ChatStore.fi_score := Some 4%Z;
          ChatStore.fi_comment := None;
          ChatStore.fi_created_at := Store.Default |}) ].

Definition chat : ChatStore.chat_database :=
  match ChatStore.run chat_script ChatStore.empty_chat with
  | inr c => c
  | inl _ => ChatStore.empty_chat
  end.


End MoreExamples.
(* ================================================================== *)
(** * Facts about conditions, ORDER BY and LIMIT *)

Section SqlFacts.

Lemma and3_true (a b : Sql.cond) :
  Sql.and3 a b = Some true <-> a = Some true /\ b = Some true.
Proof.
  destruct a as [[|]|], b as [[|]|]; simpl; split;
    try discriminate; try tauto; intros [? ?]; discriminate.
Qed.

Lemma holds_and3 (a b : Sql.cond) :
  Sql.holds (Sql.and3 a b) = true <-> a = Some true /\ b = Some true.
Proof.
  destruct a as [[|]|], b as [[|]|]; simpl; split;
    try discriminate; try tauto; intros [? ?]; discriminate.
Qed.

Lemma holds_or3 (a b : Sql.cond) :
  Sql.holds (Sql.or3 a b) = true <-> a = Some true \/ b = Some true.
Proof.
  destruct a as [[|]|], b as [[|]|]; simpl; split;
    try discriminate; try tauto; intros [? | ?]; discriminate.
Qed.

Lemma float_gt_true (a b : option Q) :
  Sql.float_gt a b = Some true <->
  exists x y, a = Some x /\ b = Some y /\ (y < x)%Q.
Proof.
  unfold Sql.float_gt, Sql.strict2, Sql.Qgtb.
  destruct a as [x|], b as [y|]; split;
    try discriminate; try (intros (? & ? & ? & ? & _); discriminate).
  - intros H. exists x, y. repeat split.
    injection H as H. apply negb_true_iff in H.
    apply Qnot_le_lt. intros Hle. apply Qle_bool_iff in Hle. congruence.
  - intros (x' & y' & Hx & Hy & Hlt). injection Hx as <-. injection Hy as <-.
    f_equal. apply negb_true_iff.
    destruct (Qle_bool x y) eqn:E; [|reflexivity].
    apply Qle_bool_iff in E. exfalso. apply (Qlt_not_le _ _ Hlt E).
Qed.

Lemma eq_uuid_true (a : uuid) (b : option uuid) :
  Sql.strict2 N.eqb (Some a) b = Some true <-> b = Some a.
Proof.
  destruct b as [b|]; simpl; split; try discriminate.
  - intros H. injection H as H. apply N.eqb_eq in H. now subst.
  - intros H. injection H as ->. now rewrite N.eqb_refl.
Qed.

Lemma asc_le_total (a b : option Q) :
  Sql.asc_le a b = true \/ Sql.asc_le b a = true.
Proof.
  destruct a as [x|], b as [y|]; simpl; auto.
  destruct (Qlt_le_dec y x) as [H|H].
  - right. apply Qle_bool_iff. now apply Qlt_le_weak.
  - left. now apply Qle_bool_iff.
Qed.

Lemma asc_le_trans (a b c : option Q) :
  Sql.asc_le a b = true -> Sql.asc_le b c = true -> Sql.asc_le a c = true.
Proof.
  destruct a as [x|], b as [y|], c as [z|]; simpl;
    try discriminate; auto.
  rewrite !Qle_bool_iff. apply Qle_trans.
Qed.

Lemma asc_le_false (a b : option Q) :
  Sql.asc_le a b = false -> Sql.asc_le b a = true.
Proof.
  intros H. destruct (asc_le_total a b) as [E|E]; congruence.
Qed.

End SqlFacts.

Section ListFacts.

Context {A : Type}.

Lemma limit_ok (k : Z) (l : list A) :
  0 <= k -> Sql.limit (Some k) l = inr (firstn (Z.to_nat k) l).
Proof.
  intros Hk. unfold Sql.limit.
  destruct (k <? 0) eqn:E; [apply Z.ltb_lt in E; lia | reflexivity].
Qed.

Lemma firstn_incl (n : nat) (l : list A) (x : A) :
  In x (firstn n l) -> In x l.
Proof.
  revert n. induction l as [|y l IH]; intros [|n]; simpl; try tauto.
  intros [H|H]; [now left | right; eapply IH; eauto].
Qed.

Lemma firstn_sorted (R : A -> A -> Prop) (n : nat) (l : list A) :
  StronglySorted R l -> StronglySorted R (firstn n l).
Proof.
  intros H. revert n.
  induction H as [|x l Hs IH Hx]; intros [|n]; simpl; try constructor.
  - apply IH.
  - rewrite Forall_forall in *. intros y Hy. apply Hx.
    eapply firstn_incl; eauto.
Qed.


Lemma sorted_map_in {B} (f : A -> B) (before : A -> A -> Prop)
    (ranked : B -> B -> Prop) (l : list A) :
  (forall x y, In x l -> In y l -> before x y -> ranked (f x) (f y)) ->
  StronglySorted before l -> StronglySorted ranked (map f l).
Proof.
  intros HR H. induction H as [|x l Hs IH Hx]; simpl; constructor.
  - apply IH. intros a b Ha Hb. apply HR; now right.
  - rewrite Forall_forall in *. intros b Hb.
    apply in_map_iff in Hb as (y & <- & Hy).
    apply HR; [now left | now right | now apply Hx].
Qed.


End ListFacts.

Section OrderByFacts.

Context {A : Type} (key : A -> option Q).

Lemma insert_by_perm (x : A) (l : list A) :
  Permutation (Sql.insert_by key x l) (x :: l).
Proof.
  induction l as [|y l IH]; simpl.
  - apply Permutation_refl.
  - destruct (Sql.asc_le (key x) (key y)).
    + apply Permutation_refl.
    + apply perm_trans with (y :: x :: l).
      * now apply perm_skip.
      * apply perm_swap.
Qed.

Lemma order_by_perm (l : list A) : Permutation (Sql.order_by key l) l.
Proof.
  induction l as [|x l IH]; simpl.
  - apply perm_nil.
  - eapply perm_trans; [apply insert_by_perm|]. now apply perm_skip.
Qed.

Lemma order_by_In (l : list A) (x : A) :
  In x (Sql.order_by key l) <-> In x l.
Proof.
  split; apply Permutation_in.
  - apply order_by_perm.
  - apply Permutation_sym, order_by_perm.
Qed.

Lemma insert_by_sorted (x : A) (l : list A) :
  StronglySorted (Sql.ascending key) l ->
  StronglySorted (Sql.ascending key) (Sql.insert_by key x l).
Proof.
  induction 1 as [|y l Hs IH Hy]; simpl.
  - repeat constructor.
  - destruct (Sql.asc_le (key x) (key y)) eqn:E.
    + constructor; [now constructor|].
      constructor; [exact E|].
      rewrite Forall_forall in *. intros z Hz.
      eapply asc_le_trans; [exact E|]. now apply Hy.
    + constructor; [exact IH|].
      rewrite Forall_forall in *. intros z Hz.
      apply (Permutation_in _ (insert_by_perm x l)) in Hz.
      destruct Hz as [<-|Hz]; [now apply asc_le_false | now apply Hy].
Qed.

Lemma order_by_sorted (l : list A) :
  StronglySorted (Sql.ascending key) (Sql.order_by key l).
Proof.
  induction l as [|x l IH]; simpl; [constructor | now apply insert_by_sorted].
Qed.




End OrderByFacts.

(* ================================================================== *)
(** * Facts about the two [match_documents] *)

Section SearchFacts.

Variable cd : vector -> vector -> Q.

Lemma similarity_present (v q : vector) :
  Search.similarity cd (Some v) (Some q) = Some (1 - cd v q)%Q.
Proof. reflexivity. Qed.

Lemma similarity_gt (e qe : option vector) (thr : option Q) :
  Sql.float_gt (Search.similarity cd e qe) thr = Some true <->
  exists v q t,
    e = Some v /\ qe = Some q /\ thr = Some t /\ (t < 1 - cd v q)%Q.
Proof.
  rewrite float_gt_true. split.
  - intros (x & t & Hs & -> & Hlt).
    destruct e as [v|], qe as [q|]; try discriminate.
    rewrite similarity_present in Hs. injection Hs as <-.
    now exists v, q, t.
  - intros (v & q & t & -> & -> & -> & Hlt).
    exists (1 - cd v q)%Q, t. now rewrite similarity_present.
Qed.

Lemma schema_where_holds qe thr org dc :
  Sql.holds (Search.schema_where cd qe thr org dc) = true <->
  exists v q t,
    dc_embedding dc = Some v /\ qe = Some q /\ thr = Some t /\
    org = Some (dc_org_id dc) /\ (t < 1 - cd v q)%Q.
Proof.
  unfold Search.schema_where.
  rewrite holds_and3, and3_true, eq_uuid_true, similarity_gt. split.
  - intros ((Horg & _) & v & q & t & Hv & Hq & Ht & Hlt).
    now exists v, q, t.
  - intros (v & q & t & Hv & Hq & Ht & Horg & Hlt).
    repeat split; [exact Horg | now rewrite Hv | now exists v, q, t].
Qed.

Lemma migration_where_holds qe thr org dc d :
  Sql.holds (Search.migration_where cd qe thr org (dc, d)) = true <->
  exists v q t,
    dc_embedding dc = Some v /\ qe = Some q /\ thr = Some t /\
    (org = None \/ org = Some (doc_org_id d)) /\ (t < 1 - cd v q)%Q.
Proof.
  unfold Search.migration_where.
  rewrite holds_and3, similarity_gt.
  assert (Hor : Sql.or3 (Sql.is_null org)
                  (Sql.strict2 N.eqb (Some (doc_org_id d)) org) = Some true
                <-> org = None \/ org = Some (doc_org_id d)).
  { destruct org as [o|]; simpl.
    - destruct (N.eqb_spec (doc_org_id d) o) as [->|Hne]; split; auto;
        try discriminate.
      intros [H|H]; [discriminate | injection H as H; congruence].
    - split; auto. }
  rewrite Hor. split.
  - intros ((v & q & t & Hv & Hq & Ht & Hlt) & Horg). now exists v, q, t.
  - intros (v & q & t & Hv & Hq & Ht & Horg & Hlt).
    split; [now exists v, q, t | exact Horg].
Qed.

Lemma join_In db dc d :
  In (dc, d) (Search.chunks_join_documents db) <->
  In dc (document_chunks db) /\ In d (documents db) /\
  doc_id d = dc_document_id dc.
Proof.
  unfold Search.chunks_join_documents. rewrite in_flat_map. split.
  - intros (c & Hc & Hin). apply in_map_iff in Hin as (d' & Heq & Hd).
    injection Heq as -> ->. apply filter_In in Hd as [Hd He].
    apply N.eqb_eq in He. auto.
  - intros (Hc & Hd & He). exists dc. split; [exact Hc|].
    apply in_map. apply filter_In. split; [exact Hd|].
    apply N.eqb_eq. now symmetry.
Qed.

Lemma limit_valid {A} (cnt : option Z) (l : list A) :
  Sql.valid_count cnt ->
  exists n, Sql.limit cnt l = inr (firstn n l) /\
            forall k, cnt = Some k -> n = Z.to_nat k.
Proof.
  destruct cnt as [k|]; simpl; intros Hk.
  - exists (Z.to_nat k). split.
    + destruct (k <? 0) eqn:E; [apply Z.ltb_lt in E; lia | reflexivity].
    + intros k' H. now injection H as <-.
  - exists (List.length l). rewrite firstn_all. split; [reflexivity|].
    discriminate.
Qed.

(** The shape of a successful call. *)
Lemma schema_returns db qe thr cnt org :
  Sql.valid_count cnt ->
  exists n,
    Search.match_documents_schema cd db qe thr cnt org
    = inr (map (Search.schema_select cd qe)
             (firstn n (Search.schema_ranked cd db qe thr org))) /\
    forall k, cnt = Some k -> n = Z.to_nat k.
Proof.
  intros Hk. unfold Search.match_documents_schema.
  destruct (limit_valid cnt (Search.schema_ranked cd db qe thr org) Hk)
    as (n & -> & Hn).
  now exists n.
Qed.

Lemma migration_returns db qe thr cnt org :
  Sql.valid_count cnt ->
  exists n,
    Search.match_documents_migration cd db qe thr cnt org
    = inr (map (Search.migration_select cd qe)
             (firstn n (Search.migration_ranked cd db qe thr org))) /\
    forall k, cnt = Some k -> n = Z.to_nat k.
Proof.
  intros Hk. unfold Search.match_documents_migration.
  destruct (limit_valid cnt (Search.migration_ranked cd db qe thr org) Hk)
    as (n & -> & Hn).
  now exists n.
Qed.

Lemma schema_ranked_In db qe thr org dc :
  In dc (Search.schema_ranked cd db qe thr org) <->
  In dc (document_chunks db) /\
  Sql.holds (Search.schema_where cd qe thr org dc) = true.
Proof.
  unfold Search.schema_ranked, Search.schema_hits.
  now rewrite order_by_In, filter_In.
Qed.

Lemma migration_ranked_In db qe thr org row :
  In row (Search.migration_ranked cd db qe thr org) <->
  In row (Search.chunks_join_documents db) /\
  Sql.holds (Search.migration_where cd qe thr org row) = true.
Proof.
  unfold Search.migration_ranked, Search.migration_hits.
  now rewrite order_by_In, filter_In.
Qed.

End SearchFacts.

(* ================================================================== *)
(** * Similarity search: tenants, ranking, ties, embeddings *)

Section SearchClaims.

Variable cd : vector -> vector -> Q.

Lemma schema_ranked_row db qe thr org dc :
  In dc (Search.schema_ranked cd db qe thr org) ->
  exists v q t,
    In dc (document_chunks db) /\ dc_embedding dc = Some v /\
    qe = Some q /\ thr = Some t /\ org = Some (dc_org_id dc) /\
    (t < 1 - cd v q)%Q.
Proof.
  intros H. apply schema_ranked_In in H as [Hin Hw].
  apply schema_where_holds in Hw as (v & q & t & ? & ? & ? & ? & ?).
  now exists v, q, t.
Qed.

Lemma migration_ranked_row db qe thr org dc d :
  In (dc, d) (Search.migration_ranked cd db qe thr org) ->
  exists v q t,
    In dc (document_chunks db) /\ In d (documents db) /\
    doc_id d = dc_document_id dc /\ dc_embedding dc = Some v /\
    qe = Some q /\ thr = Some t /\
    (org = None \/ org = Some (doc_org_id d)) /\ (t < 1 - cd v q)%Q.
Proof.
  intros H. apply migration_ranked_In in H as [Hin Hw].
  apply join_In in Hin as (? & ? & ?).
  apply migration_where_holds in Hw as (v & q & t & ? & ? & ? & ? & ?).
  now exists v, q, t.
Qed.

(** C1 (as amended).  With a tenant [T1] as filter, the function of the
    schema returns only rows of chunks whose [org_id] is [T1], and the
    function of the migration only rows of chunks whose document has
    [org_id] [T1] (hence chunks of [T1] where every chunk carries the
    organization of its document); neither returns a chunk of another
    tenant [T2].  With a NULL filter the function of the schema returns no
    row, and the function of the migration ranks every chunk that is above
    the threshold, whatever its organization. *)
Theorem tenant_filter_scopes_results db qe thr cnt (T1 T2 : uuid) :
  T1 <> T2 -> Sql.valid_count cnt ->
  (exists rows,
      Search.match_documents_schema cd db qe thr cnt (Some T1) = inr rows /\
      forall r, In r rows ->
        exists dc, In dc (document_chunks db) /\
                   r = Search.schema_select cd qe dc /\
                   dc_org_id dc = T1 /\ dc_org_id dc <> T2) /\
  Search.match_documents_schema cd db qe thr cnt None = inr [] /\
  (exists rows,
      Search.match_documents_migration cd db qe thr cnt (Some T1)
      = inr rows /\
      forall r, In r rows ->
        exists dc d, In dc (document_chunks db) /\ In d (documents db) /\
                     doc_id d = dc_document_id dc /\
                     r = Search.migration_select cd qe (dc, d) /\
                     doc_org_id d = T1 /\ doc_org_id d <> T2 /\
                     (Search.org_consistent db ->
                      dc_org_id dc = T1 /\ dc_org_id dc <> T2)) /\
  (forall dc d,
     In (dc, d) (Search.migration_ranked cd db qe thr None) <->
     In dc (document_chunks db) /\ In d (documents db) /\
     doc_id d = dc_document_id dc /\
     exists v q t,
       dc_embedding dc = Some v /\ qe = Some q /\ thr = Some t /\
       (t < 1 - cd v q)%Q).
Proof.
  intros Hne Hcnt. split; [|split; [|split]].
  - destruct (schema_returns cd db qe thr cnt (Some T1) Hcnt)
      as (n & -> & _).
    eexists. split; [reflexivity|]. intros r Hr.
    apply in_map_iff in Hr as (dc & <- & Hdc).
    apply firstn_incl, schema_ranked_row in Hdc
      as (v & q & t & Hin & _ & _ & _ & Horg & _).
    injection Horg as Horg. exists dc.
    repeat split; first [assumption | congruence].
  - destruct (schema_returns cd db qe thr cnt None Hcnt) as (n & -> & _).
    destruct (firstn n (Search.schema_ranked cd db qe thr None))
      as [|dc l] eqn:E; [reflexivity|].
    assert (Hdc : In dc (Search.schema_ranked cd db qe thr None)).
    { apply (firstn_incl n). rewrite E. now left. }
    apply schema_ranked_row in Hdc as (v & q & t & _ & _ & _ & _ & H & _).
    discriminate.
  - destruct (migration_returns cd db qe thr cnt (Some T1) Hcnt)
      as (n & -> & _).
    eexists. split; [reflexivity|]. intros r Hr.
    apply in_map_iff in Hr as ([dc d] & <- & Hrow).
    apply firstn_incl, migration_ranked_row in Hrow
      as (v & q & t & Hdc & Hd & Hid & _ & _ & _ & Horg & _).
    destruct Horg as [Horg|Horg]; [discriminate|]. injection Horg as Horg.
    exists dc, d.
    do 3 (split; [assumption|]). split; [reflexivity|].
    do 2 (split; [congruence|]).
    intros Hc. rewrite <- (Hc dc d Hdc Hd Hid). split; congruence.
  - intros dc d.
    rewrite migration_ranked_In, join_In, migration_where_holds. split.
    + intros ((Hdc & Hd & Hid) & v & q & t & Hv & Hq & Ht & _ & Hlt).
      repeat split; try assumption. now exists v, q, t.
    + intros (Hdc & Hd & Hid & v & q & t & Hv & Hq & Ht & Hlt).
      split; [now repeat split|]. exists v, q, t.
      repeat split; try assumption. now left.
Qed.

(** C3.  For a count [k] that LIMIT accepts, each of the two functions
    returns a sequence ranked by similarity, highest first; the
    similarity of a row is one minus the cosine distance between the
    chunk's embedding and the query vector and is strictly above the
    threshold; the sequence has at most [k] rows. *)
Theorem match_documents_ranked db qe thr (k : Z) org :
  0 <= k ->
  (exists rows,
      Search.match_documents_schema cd db qe thr (Some k) org = inr rows /\
      StronglySorted
        (fun a b =>
           Sql.desc (Search.sm_similarity a) (Search.sm_similarity b))
        rows /\
      (forall r, In r rows ->
         exists dc v q t,
           In dc (document_chunks db) /\
           r = Search.schema_select cd qe dc /\
           dc_embedding dc = Some v /\ qe = Some q /\ thr = Some t /\
           Search.sm_similarity r = Some (1 - cd v q)%Q /\
           (t < 1 - cd v q)%Q) /\
      Z.of_nat (List.length rows) <= k) /\
  (exists rows,
      Search.match_documents_migration cd db qe thr (Some k) org
      = inr rows /\
      StronglySorted
        (fun a b =>
           Sql.desc (Search.mm_similarity a) (Search.mm_similarity b))
        rows /\
      (forall r, In r rows ->
         exists dc d v q t,
           In dc (document_chunks db) /\ In d (documents db) /\
           r = Search.migration_select cd qe (dc, d) /\
           dc_embedding dc = Some v /\ qe = Some q /\ thr = Some t /\
           Search.mm_similarity r = Some (1 - cd v q)%Q /\
           (t < 1 - cd v q)%Q) /\
      Z.of_nat (List.length rows) <= k).
Proof.
  intros Hk. split.
  - destruct (schema_returns cd db qe thr (Some k) org Hk) as (n & -> & Hn).
    rewrite (Hn k eq_refl). eexists. split; [reflexivity|]. repeat split.
    + apply sorted_map_in
        with (before := Sql.ascending
                          (fun dc => Search.distance cd (dc_embedding dc) qe)).
      * intros x y Hx Hy Hle. unfold Sql.ascending in Hle.
        apply firstn_incl, schema_ranked_row in Hx
          as (v & q & t & _ & Hv & Hq & _).
        apply firstn_incl, schema_ranked_row in Hy
          as (v' & q' & t' & _ & Hv' & Hq' & _).
        simpl. rewrite Hv, Hv', Hq in *. simpl in *.
        apply Qle_bool_iff in Hle. lra.
      * apply firstn_sorted, order_by_sorted.
    + intros r Hr. apply in_map_iff in Hr as (dc & <- & Hdc).
      apply firstn_incl, schema_ranked_row in Hdc
        as (v & q & t & Hin & Hv & Hq & Ht & _ & Hlt).
      exists dc, v, q, t. repeat split; try assumption.
      simpl. now rewrite Hv, Hq.
    + rewrite length_map.
      pose proof (firstn_le_length (Z.to_nat k)
                    (Search.schema_ranked cd db qe thr org)). lia.
  - destruct (migration_returns cd db qe thr (Some k) org Hk)
      as (n & -> & Hn).
    rewrite (Hn k eq_refl). eexists. split; [reflexivity|]. repeat split.
    + apply sorted_map_in
        with (before := Sql.ascending
                          (fun row =>
                             Search.distance cd (dc_embedding (fst row)) qe)).
      * intros [x dx] [y dy] Hx Hy Hle. unfold Sql.ascending in Hle.
        apply firstn_incl, migration_ranked_row in Hx
          as (v & q & t & _ & _ & _ & Hv & Hq & _).
        apply firstn_incl, migration_ranked_row in Hy
          as (v' & q' & t' & _ & _ & _ & Hv' & Hq' & _).
        simpl. simpl in Hle. rewrite Hv, Hv', Hq in *. simpl in *.
        apply Qle_bool_iff in Hle. lra.
      * apply firstn_sorted, order_by_sorted.
    + intros r Hr. apply in_map_iff in Hr as ([dc d] & <- & Hrow).
      apply firstn_incl, migration_ranked_row in Hrow
        as (v & q & t & Hdc & Hd & _ & Hv & Hq & Ht & _ & Hlt).
      exists dc, d, v, q, t. repeat split; try assumption.
      simpl. now rewrite Hv, Hq.
    + rewrite length_map.
      pose proof (firstn_le_length (Z.to_nat k)
                    (Search.migration_ranked cd db qe thr org)). lia.
Qed.




Lemma limit_inr {A} (cnt : option Z) (l rows : list A) :
  Sql.limit cnt l = inr rows -> exists n, rows = firstn n l.
Proof.
  destruct cnt as [k|]; simpl.
  - destruct (k <? 0); [discriminate|]. intros H. injection H as <-.
    now exists (Z.to_nat k).
  - intros H. injection H as <-. exists (List.length l).
    now rewrite firstn_all.
Qed.

(** C10.  The function of the schema rejects a chunk without embedding
    outright, whatever the other conditions are, and for every input each
    row it returns comes from a chunk with a present embedding, the row's
    similarity being one minus the distance from that vector to a present
    query vector.  The call returns whenever LIMIT accepts the count. *)
Theorem schema_match_has_embedding db qe thr cnt org :
  (forall dc, dc_embedding dc = None ->
     Search.schema_where cd qe thr org dc = Some false) /\
  (forall rows,
     Search.match_documents_schema cd db qe thr cnt org = inr rows ->
     forall r, In r rows ->
       exists dc v q,
         In dc (document_chunks db) /\ r = Search.schema_select cd qe dc /\
         dc_embedding dc = Some v /\ qe = Some q /\
         Search.sm_similarity r = Some (1 - cd v q)%Q) /\
  (Sql.valid_count cnt ->
   exists rows,
     Search.match_documents_schema cd db qe thr cnt org = inr rows).
Proof.
  split; [|split].
  - intros dc Hnone. unfold Search.schema_where. rewrite Hnone.
    destruct org as [o|]; simpl; [|reflexivity].
    now destruct (N.eqb (dc_org_id dc) o).
  - intros rows Hrows r Hr. unfold Search.match_documents_schema in Hrows.
    destruct (Sql.limit cnt (Search.schema_ranked cd db qe thr org))
      as [e|l] eqn:El; [discriminate|].
    injection Hrows as <-. apply limit_inr in El as (n & ->).
    apply in_map_iff in Hr as (dc & <- & Hdc).
    apply firstn_incl, schema_ranked_row in Hdc
      as (v & q & t & Hin & Hv & Hq & _).
    exists dc, v, q. repeat split; try assumption.
    simpl. now rewrite Hv, Hq.
  - intros Hcnt.
    destruct (schema_returns cd db qe thr cnt org Hcnt) as (n & -> & _).
    eexists. reflexivity.
Qed.

End SearchClaims.

(** C1, refuted as stated: called without a tenant filter, the function of
    the migration returns the chunk of organization 2 next to the chunk of
    organization 1. *)
Lemma null_filter_returns_other_tenant :
  Store.run Examples.two_tenants_script empty_db = inr Examples.two_tenants /\
  Search.migration_ranking
    (Search.match_documents_migration Search.unit_cosine_distance
       Examples.two_tenants (Some Examples.east) (Some (3 # 4)%Q) (Some 5)
       None)
  = inr [(11%N, Some 1%Q); (12%N, Some 1%Q)] /\
  map (fun c => (dc_id c, dc_org_id c)) (document_chunks Examples.two_tenants)
  = [(11%N, 1%N); (12%N, 2%N)].
Proof. repeat split. Qed.

Lemma tenant_filter_scopes_results_witness :
  1%N <> 2%N /\ Sql.valid_count (Some 5) /\
  Search.match_documents_schema Search.unit_cosine_distance
    Examples.two_tenants (Some Examples.east) (Some (3 # 4)%Q) (Some 5) None
  = inr [].
Proof.
  assert (H1 : 1%N <> 2%N) by discriminate.
  assert (H2 : Sql.valid_count (Some 5)) by (simpl; lia).
  split; [exact H1|]. split; [exact H2|].
  exact (proj1 (proj2 (tenant_filter_scopes_results
                         Search.unit_cosine_distance Examples.two_tenants
                         (Some Examples.east) (Some (3 # 4)%Q) (Some 5)
                         1%N 2%N H1 H2))).
Defined.

Lemma match_documents_ranked_witness :
  0 <= 5 /\
  exists rows,
    Search.match_documents_schema Search.unit_cosine_distance
      Examples.two_tenants (Some Examples.east) (Some (3 # 4)%Q) (Some 5)
      (Some 1%N) = inr rows /\
    Z.of_nat (List.length rows) <= 5.
Proof.
  assert (H : 0 <= 5) by lia.
  split; [exact H|].
  destruct (proj1 (match_documents_ranked Search.unit_cosine_distance
                     Examples.two_tenants (Some Examples.east)
                     (Some (3 # 4)%Q) 5 (Some 1%N) H))
    as (rows & Hrows & _ & _ & Hlen).
  exists rows. split; assumption.
Defined.


Lemma schema_match_has_embedding_witness :
  Sql.valid_count (Some 5) /\
  exists rows,
    Search.match_documents_schema Search.unit_cosine_distance
      Examples.two_tenants (Some Examples.east) (Some (3 # 4)%Q) (Some 5)
      (Some 1%N) = inr rows.
Proof.
  assert (H : Sql.valid_count (Some 5)) by (simpl; lia).
  split; [exact H|].
  exact (proj2 (proj2 (schema_match_has_embedding
                         Search.unit_cosine_distance Examples.two_tenants
                         (Some Examples.east) (Some (3 # 4)%Q) (Some 5)
                         (Some 1%N))) H).
Defined.

(* ================================================================== *)
(** * The store: what every accepted statement preserves *)

Section StoreFacts.

Import Store.

Lemma has_document_true docs id :
  has_document docs id = true <-> exists d, In d docs /\ doc_id d = id.
Proof.
  unfold has_document. rewrite existsb_exists.
  split; intros (d & Hd & He); exists d; split; auto; now apply N.eqb_eq.
Qed.

Lemma has_document_false docs id :
  has_document docs id = false <-> forall d, In d docs -> doc_id d <> id.
Proof.
  split.
  - intros H d Hd He.
    assert (has_document docs id = true)
      by (apply has_document_true; now exists d).
    congruence.
  - intros H. destruct (has_document docs id) eqn:E; [|reflexivity].
    apply has_document_true in E as (d & Hd & He). now elim (H d Hd).
Qed.

Lemma status_check_true status :
  documents_status_check status = true <->
  status = None \/ exists st, status = Some st /\ In st document_statuses.
Proof.
  unfold documents_status_check, Sql.in_list.
  destruct status as [st|]; cbn [Sql.check_passes].
  - destruct (existsb (String.eqb st) document_statuses) eqn:E.
    + split; [intros _ | reflexivity]. right. exists st. split; [reflexivity|].
      apply existsb_exists in E as (x & Hx & He).
      apply String.eqb_eq in He. now subst.
    + split; [discriminate|]. intros [H|(x & H & Hx)]; [discriminate|].
      injection H as <-.
      assert (existsb (String.eqb st) document_statuses = true).
      { apply existsb_exists. exists st. split; [exact Hx|].
        apply String.eqb_refl. }
      congruence.
  - split; auto.
Qed.

Lemma distinct_NoDup ids : distinct ids = true <-> NoDup ids.
Proof.
  induction ids as [|x r IH]; simpl.
  - split; [constructor | reflexivity].
  - rewrite andb_true_iff, negb_true_iff, IH. split.
    + intros [Hx Hr]. constructor; [|exact Hr]. intros Hin.
      assert (existsb (N.eqb x) r = true).
      { apply existsb_exists. exists x. split; [exact Hin|].
        apply N.eqb_refl. }
      congruence.
    + intros H. inversion H as [|? ? Hx Hr]; subst. split; [|exact Hr].
      destruct (existsb (N.eqb x) r) eqn:E; [|reflexivity].
      apply existsb_exists in E as (y & Hy & He).
      apply N.eqb_eq in He. now subst.
Qed.

(** Deleting rows keeps the ids of the remaining documents distinct. *)
Lemma remaining_ids_distinct (keep : documents_row -> bool) docs :
  NoDup (map doc_id docs) -> NoDup (map doc_id (filter keep docs)).
Proof.
  induction docs as [|d docs IH]; simpl; [auto|].
  intros H. inversion H as [|? ? Hd Hrest]; subst.
  destruct (keep d); simpl; [|now apply IH].
  constructor; [|now apply IH].
  intros Hin. apply Hd. apply in_map_iff in Hin as (d' & He & Hd').
  apply in_map_iff. exists d'. split; [exact He|].
  now apply filter_In in Hd'.
Qed.

Lemma consistent_empty : consistent empty_db.
Proof.
  split; [constructor|]. split; intros ? [].
Qed.

Lemma insert_documents_row s i db db' :
  insert_documents s i db = inr db' ->
  exists row,
    documents_new_row s i = Some row /\
    documents_status_check (doc_status row) = true /\
    has_document (documents db) (doc_id row) = false /\
    db' = {| orgs := orgs db;
             documents := documents db ++ [row];
             document_chunks := document_chunks db |}.
Proof.
  unfold insert_documents.
  destruct (documents_new_row s i) as [row|]; [|discriminate].
  destruct (documents_status_check (doc_status row)) eqn:Ec;
    [|discriminate]. simpl.
  destruct (has_document (documents db) (doc_id row)) eqn:Eu;
    [discriminate|].
  destruct (has_org db (doc_org_id row)); [|discriminate]. simpl.
  intros H. injection H as <-. now exists row.
Qed.

Lemma insert_documents_consistent s i db db' :
  consistent db -> insert_documents s i db = inr db' -> consistent db'.
Proof.
  intros (Hid & Hfk & Hst) H.
  apply insert_documents_row in H as (row & _ & Hc & Hu & ->).
  repeat split; simpl.
  - rewrite map_app. simpl.
    apply NoDup_app; [exact Hid | repeat constructor; intros [] | ].
    intros x Hx [<-|[]]. apply in_map_iff in Hx as (d & He & Hd).
    apply (proj1 (has_document_false _ _) Hu d Hd He).
  - intros c Hc'. destruct (Hfk c Hc') as (d & Hd & He).
    exists d. split; [|exact He]. apply in_or_app. now left.
  - intros d Hd. apply in_app_or in Hd as [Hd|[<-|[]]]; [now apply Hst|].
    now apply status_check_true.
Qed.

Lemma insert_document_chunks_consistent s i db db' :
  consistent db -> insert_document_chunks s i db = inr db' -> consistent db'.
Proof.
  intros (Hid & Hfk & Hst). unfold insert_document_chunks.
  destruct (document_chunks_new_row s i) as [row|]; [|discriminate].
  destruct (has_chunk (document_chunks db) (dc_id row)); [discriminate|].
  destruct (has_org db (dc_org_id row)); simpl; [|discriminate].
  destruct (has_document (documents db) (dc_document_id row)) eqn:Ed;
    simpl; [|discriminate].
  intros H. injection H as <-. repeat split; simpl; try assumption.
  intros c Hc. apply in_app_or in Hc as [Hc|[<-|[]]]; [now apply Hfk|].
  now apply has_document_true.
Qed.

Lemma update_documents_consistent s id set db db' :
  update_documents s id set db = inr db' -> consistent db'.
Proof.
  unfold update_documents.
  set (docs := map _ (documents db)).
  destruct (forallb (fun d => documents_status_check (doc_status d)) docs)
    eqn:Ec; simpl; [|discriminate].
  destruct (distinct (map doc_id docs)) eqn:Eu; simpl; [|discriminate].
  destruct (forallb (fun d => has_org db (doc_org_id d)) docs);
    simpl; [|discriminate].
  destruct (forallb (fun c => has_document docs (dc_document_id c))
              (document_chunks db)) eqn:Ef; simpl; [|discriminate].
  intros H. injection H as <-. repeat split; simpl.
  - now apply distinct_NoDup.
  - intros c Hc. rewrite forallb_forall in Ef.
    now apply has_document_true, Ef.
  - intros d Hd. rewrite forallb_forall in Ec.
    now apply status_check_true, Ec.
Qed.

Lemma update_document_chunks_consistent id set db db' :
  consistent db -> update_document_chunks id set db = inr db' ->
  consistent db'.
Proof.
  intros (Hid & Hfk & Hst). unfold update_document_chunks.
  set (chunks := map _ (document_chunks db)).
  destruct (distinct (map dc_id chunks)); simpl; [|discriminate].
  destruct (forallb _ chunks) eqn:Ef; simpl; [|discriminate].
  intros H. injection H as <-. repeat split; simpl; try assumption.
  intros c Hc. rewrite forallb_forall in Ef.
  specialize (Ef c Hc). apply andb_true_iff in Ef as [_ Ef].
  now apply has_document_true.
Qed.

Lemma delete_documents_consistent id db :
  consistent db -> consistent (delete_documents id db).
Proof.
  intros (Hid & Hfk & Hst). repeat split; simpl.
  - now apply remaining_ids_distinct.
  - intros c Hc. apply filter_In in Hc as [Hc Hkeep].
    destruct (Hfk c Hc) as (d & Hd & He). exists d. split; [|exact He].
    apply filter_In. split; [exact Hd|].
    apply negb_true_iff in Hkeep. apply negb_true_iff.
    destruct (N.eqb_spec (doc_id d) id) as [Heq|]; [|reflexivity].
    rewrite has_document_false in Hkeep. exfalso.
    apply (Hkeep d); [|exact He].
    apply filter_In. split; [exact Hd | now apply N.eqb_eq].
  - intros d Hd. apply filter_In in Hd as [Hd _]. now apply Hst.
Qed.

Lemma delete_orgs_consistent id db :
  consistent db -> consistent (delete_orgs id db).
Proof.
  intros (Hid & Hfk & Hst). repeat split; simpl.
  - now apply remaining_ids_distinct.
  - intros c Hc. apply filter_In in Hc as [Hc Hkeep].
    apply andb_true_iff in Hkeep as [_ Hkeep].
    destruct (Hfk c Hc) as (d & Hd & He). exists d. split; [|exact He].
    apply filter_In. split; [exact Hd|].
    apply negb_true_iff in Hkeep. apply negb_true_iff.
    destruct (N.eqb_spec (doc_org_id d) id) as [Heq|]; [|reflexivity].
    rewrite has_document_false in Hkeep. exfalso.
    apply (Hkeep d); [|exact He].
    apply filter_In. split; [exact Hd | now apply N.eqb_eq].
  - intros d Hd. apply filter_In in Hd as [Hd _]. now apply Hst.
Qed.

Lemma exec_consistent s st db db' :
  consistent db -> exec s st db = inr db' -> consistent db'.
Proof.
  intros Hc. destruct st; simpl.
  - unfold insert_orgs. destruct (orgs_new_row s i); [|discriminate].
    destruct (has_org db _); [discriminate|].
    intros H. injection H as <-. exact Hc.
  - now apply insert_documents_consistent.
  - now apply insert_document_chunks_consistent.
  - apply update_documents_consistent.
  - now apply update_document_chunks_consistent.
  - intros H. injection H as <-. now apply delete_documents_consistent.
  - intros H. injection H as <-. destruct Hc as (Hid & Hfk & Hst).
    repeat split; simpl; try assumption.
    intros c Hc. apply filter_In in Hc as [Hc _]. now apply Hfk.
  - intros H. injection H as <-. now apply delete_orgs_consistent.
Qed.

Lemma reachable_consistent db : reachable db -> consistent db.
Proof.
  induction 1 as [|s st db db' _ IH Hexec].
  - apply consistent_empty.
  - exact (exec_consistent s st db db' IH Hexec).
Qed.

Lemma run_reachable script db db' :
  reachable db -> run script db = inr db' -> reachable db'.
Proof.
  revert db. induction script as [|[s st] rest IH]; simpl; intros db Hr.
  - intros H. now injection H as <-.
  - destruct (exec s st db) as [e|db1] eqn:E; [discriminate|].
    apply IH. exact (reach_exec s st db db1 Hr E).
Qed.

Lemma built_reachable script db :
  run script empty_db = inr db -> reachable db.
Proof. apply run_reachable, reach_empty. Qed.

End StoreFacts.

(* ================================================================== *)
(** * Documents: deletion and status *)

(** C6.  In every state of the database no chunk is without its document
    record.  Deleting a document is one statement that always succeeds; in
    the state it leaves, the document record and every chunk of the document
    are gone together, the other documents and the chunks of other documents
    are still there, and again no chunk is without its document record. *)
Theorem delete_document_cascades s db id :
  Store.reachable db ->
  Store.no_dangling_chunk db /\
  exists db',
    Store.exec s (Store.DeleteDocuments id) db = inr db' /\
    Store.reachable db' /\
    (forall d, In d (documents db') <->
               In d (documents db) /\ doc_id d <> id) /\
    (forall c, In c (document_chunks db') <->
               In c (document_chunks db) /\ dc_document_id c <> id) /\
    Store.no_dangling_chunk db'.
Proof.
  intros Hr. pose proof (reachable_consistent db Hr) as (Hid & Hfk & Hst).
  split; [exact Hfk|].
  exists (Store.delete_documents id db).
  assert (Hr' : Store.reachable (Store.delete_documents id db)).
  { now apply (Store.reach_exec s (Store.DeleteDocuments id) db). }
  split; [reflexivity|]. split; [exact Hr'|]. repeat split.
  - now apply filter_In in H.
  - apply filter_In in H as [_ H]. apply negb_true_iff in H.
    now apply N.eqb_neq.
  - intros [Hd Hne]. apply filter_In. split; [exact Hd|].
    apply negb_true_iff. now apply N.eqb_neq.
  - now apply filter_In in H.
  - simpl in H. apply filter_In in H as [Hc Hkeep].
    apply negb_true_iff in Hkeep. rewrite has_document_false in Hkeep.
    intros Heq. destruct (Hfk c Hc) as (d & Hd & He).
    apply (Hkeep d); [|exact He].
    apply filter_In. split; [exact Hd|]. apply N.eqb_eq. congruence.
  - intros [Hc Hne]. simpl. apply filter_In. split; [exact Hc|].
    apply negb_true_iff, has_document_false.
    intros d Hd He. apply filter_In in Hd as [_ Hd].
    apply N.eqb_eq in Hd. congruence.
  - apply (reachable_consistent _ Hr').
Qed.

Lemma delete_document_cascades_witness :
  Store.reachable Examples.two_tenants /\
  Store.no_dangling_chunk Examples.two_tenants.
Proof.
  assert (H : Store.reachable Examples.two_tenants)
    by (apply (built_reachable Examples.two_tenants_script); reflexivity).
  split; [exact H|].
  exact (proj1 (delete_document_cascades (Examples.at_time 106)
                  Examples.two_tenants 21%N H)).
Defined.

(** C7 (as amended).  In every state of the database the status of each
    document, when it is not NULL, is one of uploaded, processing, indexed,
    failed: every INSERT and UPDATE that is accepted keeps it so.  A
    document inserted without an explicit status has status uploaded. *)
Theorem document_status_constrained db :
  Store.reachable db ->
  (forall d, In d (documents db) -> Store.status_constrained d) /\
  (forall s i db',
     Store.di_status i = Store.Default ->
     Store.exec s (Store.InsertDocuments i) db = inr db' ->
     exists row,
       documents db' = documents db ++ [row] /\
       doc_status row = Some "uploaded"%string) /\
  (forall s st db',
     Store.exec s st db = inr db' ->
     forall d, In d (documents db') -> Store.status_constrained d).
Proof.
  intros Hr. pose proof (reachable_consistent db Hr) as Hc.
  split; [apply Hc|]. split.
  - intros s i db' Hdef H. simpl in H.
    apply insert_documents_row in H as (row & Hrow & _ & _ & ->).
    exists row. split; [reflexivity|].
    unfold Store.documents_new_row in Hrow. rewrite Hdef in Hrow.
    destruct (Store.resolve _ _), (Store.di_org_id i),
      (Store.di_storage_path i), (Store.di_filename i),
      (Store.di_mime_type i), (Store.di_size_bytes i); try discriminate.
    now injection Hrow as <-.
  - intros s st db' H. apply (exec_consistent s st db db' Hc H).
Qed.

Lemma document_status_constrained_witness :
  Store.reachable Examples.two_tenants /\
  forall d, In d (documents Examples.two_tenants) ->
            Store.status_constrained d.
Proof.
  assert (H : Store.reachable Examples.two_tenants)
    by (apply (built_reachable Examples.two_tenants_script); reflexivity).
  split; [exact H|].
  exact (proj1 (document_status_constrained Examples.two_tenants H)).
Defined.

(** C7, refuted as stated: an INSERT that names the status creates a
    document whose status is indexed, not uploaded. *)
Lemma document_created_as_indexed :
  Store.run Examples.indexed_at_birth_script empty_db
  = inr (Examples.built Examples.indexed_at_birth_script) /\
  map (fun d => (doc_id d, doc_status d))
    (documents (Examples.built Examples.indexed_at_birth_script))
  = [(21%N, Some "indexed"%string)].
Proof. repeat split. Qed.

(** The CHECK constraint lets a NULL status pass. *)
Lemma document_created_with_null_status :
  Store.run Examples.null_status_script empty_db
  = inr (Examples.built Examples.null_status_script) /\
  map (fun d => (doc_id d, doc_status d))
    (documents (Examples.built Examples.null_status_script))
  = [(21%N, None)].
Proof. repeat split. Qed.

(* ================================================================== *)
(** * The two [match_documents] compared *)

Section Versions.

Variable cd : vector -> vector -> Q.

Lemma order_by_map {A B} (f : A -> B) (key : B -> option Q) (l : list A) :
  map f (Sql.order_by (fun x => key (f x)) l) = Sql.order_by key (map f l).
Proof.
  induction l as [|x l IH]; [reflexivity|].
  cbn [Sql.order_by fold_right map].
  fold (Sql.order_by (fun x => key (f x)) l).
  fold (Sql.order_by key (map f l)). rewrite <- IH.
  generalize (Sql.order_by (fun x => key (f x)) l) as s.
  induction s as [|y s IHs]; [reflexivity|].
  cbn [Sql.insert_by map].
  destruct (Sql.asc_le (key (f x)) (key (f y))); [reflexivity|].
  cbn [map]. now rewrite IHs.
Qed.

Lemma filter_map_fst {A B} (p : A * B -> bool) (q : A -> bool)
    (l : list (A * B)) :
  (forall x, In x l -> p x = q (fst x)) ->
  map fst (filter p l) = filter q (map fst l).
Proof.
  induction l as [|x l IH]; [reflexivity|]. intros H. simpl.
  rewrite <- (H x (or_introl eq_refl)).
  destruct (p x); simpl; rewrite IH; auto; intros y Hy; apply H; now right.
Qed.

Lemma filter_none {A} (p : A -> bool) (l : list A) :
  (forall x, In x l -> p x = false) -> filter p l = [].
Proof.
  induction l as [|x l IH]; [reflexivity|]. intros H. simpl.
  rewrite (H x (or_introl eq_refl)). apply IH. intros y Hy. apply H.
  now right.
Qed.

(** With unique document ids, a chunk joins with exactly its document. *)
Lemma the_document docs id d :
  NoDup (map doc_id docs) -> In d docs -> doc_id d = id ->
  filter (fun d' => N.eqb id (doc_id d')) docs = [d].
Proof.
  intros Hnd Hd <-. induction docs as [|x docs IH]; [destruct Hd|].
  simpl in *. inversion Hnd as [|? ? Hx Hnd']; subst.
  destruct Hd as [->|Hd].
  - rewrite N.eqb_refl. f_equal.
    apply filter_none. intros y Hy. apply N.eqb_neq.
    intros He. apply Hx. rewrite He. now apply in_map.
  - destruct (N.eqb_spec (doc_id d) (doc_id x)) as [He|_].
    + exfalso. apply Hx. rewrite <- He. now apply in_map.
    + now apply IH.
Qed.

Lemma join_chunks db :
  Store.consistent db ->
  map fst (Search.chunks_join_documents db) = document_chunks db.
Proof.
  intros (Hid & Hfk & _). unfold Search.chunks_join_documents.
  unfold Store.no_dangling_chunk in Hfk.
  induction (document_chunks db) as [|c l IH]; [reflexivity|].
  simpl. destruct (Hfk c (or_introl eq_refl)) as (d & Hd & He).
  rewrite (the_document _ _ d Hid Hd He). simpl. f_equal.
  apply IH. intros c' Hc'. apply Hfk. now right.
Qed.

Lemma where_agree db qe thr (T : uuid) row :
  Search.org_consistent db ->
  In row (Search.chunks_join_documents db) ->
  Sql.holds (Search.migration_where cd qe thr (Some T) row)
  = Sql.holds (Search.schema_where cd qe thr (Some T) (fst row)).
Proof.
  intros Horg Hrow. destruct row as [dc d].
  apply join_In in Hrow as (Hdc & Hd & He).
  pose proof (Horg dc d Hdc Hd He) as Ho. simpl fst.
  apply eq_true_iff_eq.
  rewrite migration_where_holds, schema_where_holds.
  split; intros (v & q & t & Hv & Hq & Ht & HT & Hlt); exists v, q, t;
    repeat split; try assumption.
  - destruct HT as [HT|HT]; [discriminate | congruence].
  - right. congruence.
Qed.

Lemma ranked_agree db qe thr (T : uuid) :
  Store.consistent db -> Search.org_consistent db ->
  map fst (Search.migration_ranked cd db qe thr (Some T))
  = Search.schema_ranked cd db qe thr (Some T).
Proof.
  intros Hc Horg. unfold Search.migration_ranked, Search.schema_ranked.
  rewrite (order_by_map fst
             (fun dc => Search.distance cd (dc_embedding dc) qe)).
  f_equal. unfold Search.migration_hits, Search.schema_hits.
  rewrite <- (join_chunks db Hc).
  apply filter_map_fst. intros row Hrow. now apply (where_agree db).
Qed.

(** C9 (as amended).  In a state of the database in which every chunk
    carries the organization of its document, the two functions agree for
    every non-NULL tenant filter: same ids, same similarities, same order,
    and the same error where LIMIT refuses the count. *)
Theorem match_documents_versions_agree db qe thr cnt (T : uuid) :
  Store.reachable db -> Search.org_consistent db ->
  Search.schema_ranking
    (Search.match_documents_schema cd db qe thr cnt (Some T))
  = Search.migration_ranking
      (Search.match_documents_migration cd db qe thr cnt (Some T)).
Proof.
  intros Hr Horg. pose proof (reachable_consistent db Hr) as Hc.
  unfold Search.match_documents_schema, Search.match_documents_migration.
  rewrite <- (ranked_agree db qe thr T Hc Horg).
  generalize (Search.migration_ranked cd db qe thr (Some T)) as l. intros l.
  destruct cnt as [k|]; simpl.
  - destruct (k <? 0); [reflexivity|]. simpl. f_equal.
    rewrite firstn_map, !map_map. apply map_ext. now intros [dc d].
  - f_equal. rewrite !map_map. apply map_ext. now intros [dc d].
Qed.

End Versions.

Lemma two_tenants_org_consistent : Search.org_consistent Examples.two_tenants.
Proof.
  intros dc d Hdc Hd He. simpl in Hdc, Hd.
  destruct Hdc as [<-|[<-|[]]]; destruct Hd as [<-|[<-|[]]];
    first [reflexivity | discriminate He].
Qed.

Lemma match_documents_versions_agree_witness :
  Store.reachable Examples.two_tenants /\
  Search.org_consistent Examples.two_tenants /\
  Search.schema_ranking
    (Search.match_documents_schema Search.unit_cosine_distance
       Examples.two_tenants (Some Examples.east) (Some (3 # 4)%Q) (Some 5)
       (Some 2%N))
  = Search.migration_ranking
      (Search.match_documents_migration Search.unit_cosine_distance
         Examples.two_tenants (Some Examples.east) (Some (3 # 4)%Q) (Some 5)
         (Some 2%N)).
Proof.
  assert (H : Store.reachable Examples.two_tenants)
    by (apply (built_reachable Examples.two_tenants_script); reflexivity).
  split; [exact H|]. split; [exact two_tenants_org_consistent|].
  exact (match_documents_versions_agree Search.unit_cosine_distance
           Examples.two_tenants (Some Examples.east) (Some (3 # 4)%Q)
           (Some 5) 2%N H two_tenants_org_consistent).
Defined.

(** C9, refuted as stated: for a chunk filed under organization 1 whose
    document belongs to organization 2, a search for tenant 1 finds the
    chunk with the function of the schema and nothing with the function of
    the migration; the chunk's embedding is present. *)
Lemma versions_differ_on_mixed_org :
  Store.run Examples.mixed_org_script empty_db = inr Examples.mixed_org /\
  Search.schema_ranking
    (Search.match_documents_schema Search.unit_cosine_distance
       Examples.mixed_org (Some Examples.east) (Some (3 # 4)%Q) (Some 5)
       (Some 1%N))
  = inr [(11%N, Some 1%Q)] /\
  Search.migration_ranking
    (Search.match_documents_migration Search.unit_cosine_distance
       Examples.mixed_org (Some Examples.east) (Some (3 # 4)%Q) (Some 5)
       (Some 1%N))
  = inr [] /\
  map dc_embedding (document_chunks Examples.mixed_org)
  = [Some Examples.east].
Proof. repeat split. Qed.

(* ================================================================== *)
(** * Feedback *)

Lemma score_check_range (n : Z) :
  Feedback.score_check (Some n) = true <-> 1 <= n <= 5.
Proof.
  unfold Feedback.score_check. simpl.
  destruct (Z.geb_spec n 1), (Z.leb_spec n 5); simpl;
    split; try discriminate; try reflexivity; lia.
Qed.




Example four_stars_recorded :
  map Feedback.fb_score
    (fst (Feedback.record_feedback (Examples.at_time 300)
            ChatExamples.four_stars []))
  = [4].
Proof. reflexivity. Qed.

(* ================================================================== *)
(** * The answerer *)

Section AnswererFacts.

Variable cd : vector -> vector -> Q.
Variable embed : string -> option vector.
Variable generate :
  list string -> string -> list Answerer.chat_message -> option string.
Variable top_k : nat.
Variable relevance_threshold : Q.
Variable history_turns : nat.

(** Where no chunk of the tenant's documents is above the threshold,
    nothing is retrieved. *)
Lemma nothing_above_threshold db qv tenant :
  (forall dc d v,
     In dc (document_chunks db) -> In d (documents db) ->
     doc_id d = dc_document_id dc -> doc_org_id d = tenant ->
     dc_embedding dc = Some v ->
     ~ (relevance_threshold < 1 - cd v qv)%Q) ->
  Search.match_documents_migration cd db (Some qv) (Some relevance_threshold)
    (Some (Z.of_nat top_k)) (Some tenant) = inr [].
Proof.
  intros Hnone.
  destruct (migration_returns cd db (Some qv) (Some relevance_threshold)
              (Some (Z.of_nat top_k)) (Some tenant)) as (n & -> & _);
    [simpl; lia|].
  destruct (firstn n _) as [|[dc d] l] eqn:E; [reflexivity|].
  assert (Hrow : In (dc, d)
                   (Search.migration_ranked cd db (Some qv)
                      (Some relevance_threshold) (Some tenant))).
  { apply (firstn_incl n). rewrite E. now left. }
  apply migration_ranked_row in Hrow
    as (v & q & t & Hdc & Hd & Hid & Hv & Hq & Ht & Horg & Hlt).
  injection Hq as <-. injection Ht as <-.
  destruct Horg as [Horg|Horg]; [discriminate|]. injection Horg as Horg.
  now elim (Hnone dc d v).
Qed.

(** C2.  When the question is embedded and the retrieved set is empty, as
    it is when no chunk of the tenant has a similarity above the threshold,
    [answer] returns the fixed abstention statement with no source, records
    the question and that reply in the session, and has called the
    embedding provider only: the generation provider is not consulted. *)
Theorem answer_abstains_on_empty_retrieval db tenant question session qv :
  embed question = Some qv ->
  (Search.match_documents_migration cd db (Some qv)
     (Some relevance_threshold) (Some (Z.of_nat top_k)) (Some tenant)
   = inr []
   \/
   forall dc d v,
     In dc (document_chunks db) -> In d (documents db) ->
     doc_id d = dc_document_id dc -> doc_org_id d = tenant ->
     dc_embedding dc = Some v ->
     ~ (relevance_threshold < 1 - cd v qv)%Q) ->
  Answerer.answer cd embed generate top_k relevance_threshold history_turns
    db tenant question session
  = {| Answerer.out_reply :=
         {| Answerer.answer_text := Answerer.abstention;
            Answerer.sources := [] |};
       Answerer.out_session :=
         session
           ++ [ {| Answerer.msg_role := Answerer.User;
                   Answerer.msg_content := question;
                   Answerer.msg_sources := [] |};
                {| Answerer.msg_role := Answerer.Assistant;
                   Answerer.msg_content := Answerer.abstention;
                   Answerer.msg_sources := [] |} ];
       Answerer.out_calls := [Answerer.Embed question] |}.
Proof.
  intros He Hempty.
  assert (Hm : Search.match_documents_migration cd db (Some qv)
                 (Some relevance_threshold) (Some (Z.of_nat top_k))
                 (Some tenant) = inr []).
  { destruct Hempty as [H|H]; [exact H|].
    now apply nothing_above_threshold. }
  unfold Answerer.answer. rewrite He, Hm. reflexivity.
Qed.

End AnswererFacts.

Lemma answer_abstains_on_empty_retrieval_witness :
  Answerer.out_reply
    (Answerer.answer Search.unit_cosine_distance ChatExamples.embed_north
       ChatExamples.talkative 5 (3 # 4)%Q 6 Examples.two_tenants 1%N
       "Kira?"%string [])
  = {| Answerer.answer_text := Answerer.abstention;
       Answerer.sources := [] |}.
Proof.
  rewrite (answer_abstains_on_empty_retrieval Search.unit_cosine_distance
             ChatExamples.embed_north ChatExamples.talkative 5 (3 # 4)%Q 6
             Examples.two_tenants 1%N "Kira?"%string [] Examples.north
             eq_refl (or_introl eq_refl)).
  reflexivity.
Defined.

(* ================================================================== *)
(** * The chat page *)

(** C8 (as amended).  For every question that is not blank, [handleSend]
    keeps the user's message and appends one assistant message after it,
    whatever the call to the back end does.  When the call produces no
    answer, the text of that message is fixed and never taken from the
    response: the connection-error text when the call is rejected or the
    body is null, with an empty source list; the generic-error text when
    the response carries no answer, with the sources the response lists,
    none when it lists none. *)
Theorem handleSend_keeps_question t0 t1 backend st :
  Chat.blank (Chat.inputValue st) = false ->
  let result := backend (Chat.chat_request t0 st) in
  let reply := Chat.assistant_message t1 result in
  Chat.messages (Chat.handleSend t0 t1 backend st)
  = Chat.messages st ++ [Chat.userMessage t0 st; reply] /\
  Chat.type (Chat.userMessage t0 st) = Chat.user /\
  Chat.content (Chat.userMessage t0 st) = Chat.inputValue st /\
  Chat.type reply = Chat.assistant /\
  (Chat.failed result = true ->
   match result with
   | Chat.Resolved (Some data) =>
       Chat.content reply = Chat.generic_error /\
       Chat.sources reply
       = Some (Chat.shown_sources (Chat.answer_sources data)) /\
       (Chat.answer_sources data = None -> Chat.sources reply = Some [])
   | Chat.Resolved None | Chat.Rejected =>
       Chat.content reply = Chat.connection_error /\
       Chat.sources reply = Some []
   end).
Proof.
  intros Hb result reply. unfold Chat.handleSend. rewrite Hb. simpl.
  fold result. fold reply. rewrite <- app_assoc. simpl.
  split; [reflexivity|]. split; [reflexivity|]. split; [reflexivity|]. split.
  - unfold reply. now destruct result as [|[data|]].
  - unfold reply. destruct result as [|[data|]]; simpl; intros Hf;
      [now split | | now split].
    unfold Chat.no_answer in Hf. unfold Chat.string_or.
    destruct (Chat.answer data) as [[|c r]|]; try discriminate;
      (split; [reflexivity|]); (split; [reflexivity|]);
      intros Hs; now rewrite Hs.
Qed.

Lemma handleSend_keeps_question_witness :
  Chat.blank (Chat.inputValue ChatExamples.asking) = false /\
  map Chat.content
    (Chat.messages
       (Chat.handleSend ChatExamples.sent_at ChatExamples.answered_at
          ChatExamples.unreachable ChatExamples.asking))
  = [Chat.content ChatExamples.greeting;
     Chat.inputValue ChatExamples.asking;
     Chat.connection_error].
Proof.
  assert (H : Chat.blank (Chat.inputValue ChatExamples.asking) = false)
    by reflexivity.
  split; [exact H|].
  rewrite (proj1 (handleSend_keeps_question ChatExamples.sent_at
                    ChatExamples.answered_at ChatExamples.unreachable
                    ChatExamples.asking H)).
  reflexivity.
Defined.

(** C8, refuted as stated: the response carries no answer but lists a
    source; the assistant message is the generic-error text, which is not
    the text shown when the back end is unreachable, and its source list is
    not empty. *)
Lemma failed_turn_shows_sources :
  Chat.failed (ChatExamples.answerless
                 (Chat.chat_request ChatExamples.sent_at ChatExamples.asking))
  = true /\
  map (fun m => (Chat.content m, Chat.sources m))
    (Chat.messages
       (Chat.handleSend ChatExamples.sent_at ChatExamples.answered_at
          ChatExamples.answerless ChatExamples.asking))
  = [ (Chat.content ChatExamples.greeting, Some []);
      (Chat.inputValue ChatExamples.asking, None);
      (Chat.generic_error,
       Some [ {| Chat.file := Some "tapu.pdf"%string;
                 Chat.page := Chat.Text "-";
                 Chat.excerpt := Some "harc"%string |} ]) ] /\
  Chat.generic_error <> Chat.connection_error.
Proof. repeat split. discriminate. Qed.

Example blank_input_is_not_sent :
  Chat.blank (String "009" (String " " (String "194" (String "160" ""))))
  = true.
Proof. reflexivity. Qed.

(* ================================================================== *)
(** * More on the two [match_documents] *)

Section SearchEdges.

Variable cd : vector -> vector -> Q.

Lemma schema_rows_empty db qe thr cnt org :
  Sql.valid_count cnt ->
  (forall dc, ~ In dc (Search.schema_ranked cd db qe thr org)) ->
  Search.match_documents_schema cd db qe thr cnt org = inr [].
Proof.
  intros Hcnt Hnone.
  destruct (schema_returns cd db qe thr cnt org Hcnt) as (n & -> & _).
  destruct (firstn n _) as [|dc l] eqn:E; [reflexivity|].
  elim (Hnone dc). apply (firstn_incl n). rewrite E. now left.
Qed.

Lemma migration_rows_empty db qe thr cnt org :
  Sql.valid_count cnt ->
  (forall row, ~ In row (Search.migration_ranked cd db qe thr org)) ->
  Search.match_documents_migration cd db qe thr cnt org = inr [].
Proof.
  intros Hcnt Hnone.
  destruct (migration_returns cd db qe thr cnt org Hcnt) as (n & -> & _).
  destruct (firstn n _) as [|row l] eqn:E; [reflexivity|].
  elim (Hnone row). apply (firstn_incl n). rewrite E. now left.
Qed.

(** X1.  Called with a NULL query vector or with a NULL threshold, each of
    the two functions returns no row, whatever the table holds. *)
Theorem null_arguments_match_nothing db qe thr cnt org :
  Sql.valid_count cnt ->
  Search.match_documents_schema cd db None thr cnt org = inr [] /\
  Search.match_documents_schema cd db qe None cnt org = inr [] /\
  Search.match_documents_migration cd db None thr cnt org = inr [] /\
  Search.match_documents_migration cd db qe None cnt org = inr [].
Proof.
  intros Hcnt. repeat split.
  - apply schema_rows_empty; [exact Hcnt|]. intros dc H.
    apply schema_ranked_row in H as (v & q & t & _ & _ & Hq & _).
    discriminate.
  - apply schema_rows_empty; [exact Hcnt|]. intros dc H.
    apply schema_ranked_row in H as (v & q & t & _ & _ & _ & Ht & _).
    discriminate.
  - apply migration_rows_empty; [exact Hcnt|]. intros [dc d] H.
    apply migration_ranked_row in H as (v & q & t & _ & _ & _ & _ & Hq & _).
    discriminate.
  - apply migration_rows_empty; [exact Hcnt|]. intros [dc d] H.
    apply migration_ranked_row in H
      as (v & q & t & _ & _ & _ & _ & _ & Ht & _).
    discriminate.
Qed.

(** X2.  A negative [match_count] makes each of the two functions fail,
    whatever the other arguments are; a count of zero returns no row. *)
Theorem negative_count_is_refused db qe thr (k : Z) org :
  k < 0 ->
  Search.match_documents_schema cd db qe thr (Some k) org
  = inl Sql.NegativeLimit /\
  Search.match_documents_migration cd db qe thr (Some k) org
  = inl Sql.NegativeLimit /\
  Search.match_documents_schema cd db qe thr (Some 0) org = inr [] /\
  Search.match_documents_migration cd db qe thr (Some 0) org = inr [].
Proof.
  intros Hk.
  unfold Search.match_documents_schema, Search.match_documents_migration.
  simpl. apply Z.ltb_lt in Hk. rewrite Hk. now repeat split.
Qed.

Lemma sorted_prefix_before_rest {A} (R : A -> A -> Prop) (n : nat)
    (l : list A) (x y : A) :
  StronglySorted R l -> In x (firstn n l) -> In y (skipn n l) -> R x y.
Proof.
  intros Hs. revert n. induction Hs as [|a l Hs IH Ha]; intros n Hx Hy.
  - destruct n; destruct Hx.
  - destruct n as [|n]; [destruct Hx|]. simpl in Hx, Hy.
    destruct Hx as [<-|Hx].
    + rewrite Forall_forall in Ha. apply Ha.
      rewrite <- (firstn_skipn n l). apply in_or_app. now right.
    + now apply (IH n).
Qed.

(** X3.  LIMIT keeps the best rows: for a count [k >= 0], the rows each
    function returns are the first [k] of its full ranking (the call with
    a NULL count), and every returned row has a similarity at least that of
    every row of the full ranking that is cut off. *)
Theorem returned_rows_outrank_the_rest db qe thr (k : Z) org :
  0 <= k ->
  (exists full,
      Search.match_documents_schema cd db qe thr None org = inr full /\
      Search.match_documents_schema cd db qe thr (Some k) org
      = inr (firstn (Z.to_nat k) full) /\
      forall r r',
        In r (firstn (Z.to_nat k) full) -> In r' (skipn (Z.to_nat k) full) ->
        Sql.desc (Search.sm_similarity r) (Search.sm_similarity r')) /\
  (exists full,
      Search.match_documents_migration cd db qe thr None org = inr full /\
      Search.match_documents_migration cd db qe thr (Some k) org
      = inr (firstn (Z.to_nat k) full) /\
      forall r r',
        In r (firstn (Z.to_nat k) full) -> In r' (skipn (Z.to_nat k) full) ->
        Sql.desc (Search.mm_similarity r) (Search.mm_similarity r')).
Proof.
  intros Hk. split.
  - exists (map (Search.schema_select cd qe)
              (Search.schema_ranked cd db qe thr org)).
    split; [reflexivity|]. split.
    + unfold Search.match_documents_schema.
      rewrite limit_ok by exact Hk. now rewrite firstn_map.
    + intros r r' Hr Hr'.
      refine (sorted_prefix_before_rest
                (fun a b =>
                   Sql.desc (Search.sm_similarity a) (Search.sm_similarity b))
                _ _ r r' _ Hr Hr').
      apply sorted_map_in
        with (before := Sql.ascending
                          (fun dc => Search.distance cd (dc_embedding dc) qe));
        [|apply order_by_sorted].
      intros x y Hx Hy Hle. unfold Sql.ascending in Hle.
      apply schema_ranked_row in Hx as (v & q & t & _ & Hv & Hq & _).
      apply schema_ranked_row in Hy as (v' & q' & t' & _ & Hv' & Hq' & _).
      simpl. rewrite Hv, Hv', Hq in *. simpl in *.
      apply Qle_bool_iff in Hle. lra.
  - exists (map (Search.migration_select cd qe)
              (Search.migration_ranked cd db qe thr org)).
    split; [reflexivity|]. split.
    + unfold Search.match_documents_migration.
      rewrite limit_ok by exact Hk. now rewrite firstn_map.
    + intros r r' Hr Hr'.
      refine (sorted_prefix_before_rest
                (fun a b =>
                   Sql.desc (Search.mm_similarity a) (Search.mm_similarity b))
                _ _ r r' _ Hr Hr').
      apply sorted_map_in
        with (before := Sql.ascending
                          (fun row =>
                             Search.distance cd (dc_embedding (fst row)) qe));
        [|apply order_by_sorted].
      intros [x dx] [y dy] Hx Hy Hle. unfold Sql.ascending in Hle.
      apply migration_ranked_row in Hx
        as (v & q & t & _ & _ & _ & Hv & Hq & _).
      apply migration_ranked_row in Hy
        as (v' & q' & t' & _ & _ & _ & Hv' & Hq' & _).
      simpl. simpl in Hle. rewrite Hv, Hv', Hq in *. simpl in *.
      apply Qle_bool_iff in Hle. lra.
Qed.

(** X4.  Without LIMIT nothing that qualifies is left out: called with a
    NULL count and tenant [T], the function of the schema returns exactly
    the rows of the chunks of [T] that have an embedding whose similarity to
    the query vector is above the threshold, each chunk once per row it has
    in the table; the function of the migration does the same by the
    organization of the chunk's document. *)
Theorem unlimited_search_is_complete db (q : vector) (t : Q) (T : uuid) :
  (exists rows,
      Search.match_documents_schema cd db (Some q) (Some t) None (Some T)
      = inr rows /\
      Permutation rows
        (map (Search.schema_select cd (Some q))
           (filter
              (fun dc =>
                 N.eqb (dc_org_id dc) T &&
                 match dc_embedding dc with
                 | Some v => Sql.Qgtb (1 - cd v q) t
                 | None => false
                 end)
              (document_chunks db)))) /\
  (exists rows,
      Search.match_documents_migration cd db (Some q) (Some t) None (Some T)
      = inr rows /\
      Permutation rows
        (map (Search.migration_select cd (Some q))
           (filter
              (fun row =>
                 N.eqb (doc_org_id (snd row)) T &&
                 match dc_embedding (fst row) with
                 | Some v => Sql.Qgtb (1 - cd v q) t
                 | None => false
                 end)
              (Search.chunks_join_documents db)))).
Proof.
  split.
  - eexists. split; [reflexivity|]. apply Permutation_map.
    unfold Search.schema_ranked.
    eapply perm_trans; [apply order_by_perm|].
    unfold Search.schema_hits.
    erewrite filter_ext; [apply Permutation_refl|].
    intros dc. unfold Search.schema_where. simpl.
    destruct (dc_embedding dc) as [v|]; simpl;
      destruct (N.eqb (dc_org_id dc) T); simpl; try reflexivity.
    now destruct (Sql.Qgtb (1 - cd v q) t).
  - eexists. split; [reflexivity|]. apply Permutation_map.
    unfold Search.migration_ranked.
    eapply perm_trans; [apply order_by_perm|].
    unfold Search.migration_hits.
    erewrite filter_ext; [apply Permutation_refl|].
    intros [dc d]. unfold Search.migration_where. simpl.
    destruct (dc_embedding dc) as [v|]; simpl;
      destruct (N.eqb (doc_org_id d) T); simpl; try reflexivity;
      now destruct (Sql.Qgtb (1 - cd v q) t).
Qed.

End SearchEdges.

(* ================================================================== *)
(** * Keys and owners in every state of the database *)

Section IntegrityFacts.

Import Store.

Lemma has_org_true db id :
  has_org db id = true <-> exists o, In o (orgs db) /\ org_id o = id.
Proof.
  unfold has_org. rewrite existsb_exists.
  split; intros (o & Ho & He); exists o; split; auto; now apply N.eqb_eq.
Qed.

Lemma has_chunk_false chunks id :
  has_chunk chunks id = false -> ~ In id (map dc_id chunks).
Proof.
  intros H Hin. apply in_map_iff in Hin as (c & He & Hc).
  assert (has_chunk chunks id = true).
  { apply existsb_exists. exists c. split; [exact Hc | now apply N.eqb_eq]. }
  congruence.
Qed.

Lemma fresh_id_distinct (ids : list uuid) (id : uuid) :
  NoDup ids -> ~ In id ids -> NoDup (ids ++ [id]).
Proof.
  intros Hnd Hid. apply NoDup_app; [exact Hnd | repeat constructor; intros [] |].
  intros x Hx [<-|[]]. now apply Hid.
Qed.

Lemma kept_ids_distinct {A} (id : A -> uuid) (keep : A -> bool)
    (rows : list A) :
  NoDup (map id rows) -> NoDup (map id (filter keep rows)).
Proof.
  induction rows as [|r rows IH]; simpl; [auto|].
  intros H. inversion H as [|? ? Hr Hrows]; subst.
  destruct (keep r); simpl; [|now apply IH].
  constructor; [|now apply IH].
  intros Hin. apply Hr. apply in_map_iff in Hin as (r' & He & Hr').
  apply in_map_iff. exists r'. split; [exact He|].
  now apply filter_In in Hr'.
Qed.

Lemma exec_well_keyed s st db db' :
  Integrity.well_keyed db -> exec s st db = inr db' ->
  Integrity.well_keyed db'.
Proof.
  intros ((Ko & Kd & Kc) & (Od & Oc)). destruct st; simpl.
  - unfold insert_orgs. destruct (orgs_new_row s i) as [row|]; [|discriminate].
    destruct (has_org db (org_id row)) eqn:E; [discriminate|].
    intros H. injection H as <-. repeat split; simpl; try assumption.
    + rewrite map_app. apply fresh_id_distinct; [exact Ko|]. intros Hin.
      apply in_map_iff in Hin as (o & He & Ho).
      assert (has_org db (org_id row) = true)
        by (apply has_org_true; now exists o).
      congruence.
    + intros d Hd. destruct (Od d Hd) as (o & Ho & He).
      exists o. split; [apply in_or_app; now left | exact He].
    + intros c Hc. destruct (Oc c Hc) as (o & Ho & He).
      exists o. split; [apply in_or_app; now left | exact He].
  - unfold insert_documents.
    destruct (documents_new_row s i) as [row|]; [|discriminate].
    destruct (documents_status_check (doc_status row)); [|discriminate].
    simpl.
    destruct (has_document (documents db) (doc_id row)) eqn:Eu;
      [discriminate|].
    destruct (has_org db (doc_org_id row)) eqn:Eo; [|discriminate]. simpl.
    intros H. injection H as <-. repeat split; simpl; try assumption.
    + rewrite map_app. apply fresh_id_distinct; [exact Kd|]. intros Hin.
      apply in_map_iff in Hin as (d & He & Hd).
      apply (proj1 (has_document_false _ _) Eu d Hd He).
    + intros d Hd. apply in_app_or in Hd as [Hd|[<-|[]]]; [now apply Od|].
      now apply has_org_true.
  - unfold insert_document_chunks.
    destruct (document_chunks_new_row s i) as [row|]; [|discriminate].
    destruct (has_chunk (document_chunks db) (dc_id row)) eqn:Eu;
      [discriminate|].
    destruct (has_org db (dc_org_id row)) eqn:Eo; simpl; [|discriminate].
    destruct (has_document (documents db) (dc_document_id row));
      simpl; [|discriminate].
    intros H. injection H as <-. repeat split; simpl; try assumption.
    + rewrite map_app. apply fresh_id_distinct; [exact Kc|].
      now apply has_chunk_false.
    + intros c Hc. apply in_app_or in Hc as [Hc|[<-|[]]]; [now apply Oc|].
      now apply has_org_true.
  - unfold update_documents. set (docs := map _ (documents db)).
    destruct (forallb (fun d => documents_status_check (doc_status d)) docs);
      simpl; [|discriminate].
    destruct (distinct (map doc_id docs)) eqn:Eu; simpl; [|discriminate].
    destruct (forallb (fun d => has_org db (doc_org_id d)) docs) eqn:Eo;
      simpl; [|discriminate].
    destruct (forallb _ (document_chunks db)); simpl; [|discriminate].
    intros H. injection H as <-. repeat split; simpl; try assumption.
    + now apply distinct_NoDup.
    + intros d Hd. rewrite forallb_forall in Eo.
      now apply has_org_true, Eo.
  - unfold update_document_chunks. set (chunks := map _ (document_chunks db)).
    destruct (distinct (map dc_id chunks)) eqn:Eu; simpl; [|discriminate].
    destruct (forallb _ chunks) eqn:Ef; simpl; [|discriminate].
    intros H. injection H as <-. repeat split; simpl; try assumption.
    + now apply distinct_NoDup.
    + intros c Hc. rewrite forallb_forall in Ef.
      specialize (Ef c Hc). apply andb_true_iff in Ef as [Ef _].
      now apply has_org_true.
  - intros H. injection H as <-. repeat split; simpl; try assumption.
    + now apply kept_ids_distinct.
    + now apply kept_ids_distinct.
    + intros d Hd. apply filter_In in Hd as [Hd _]. now apply Od.
    + intros c Hc. apply filter_In in Hc as [Hc _]. now apply Oc.
  - intros H. injection H as <-. repeat split; simpl; try assumption.
    + now apply kept_ids_distinct.
    + intros c Hc. apply filter_In in Hc as [Hc _]. now apply Oc.
  - intros H. injection H as <-. repeat split; simpl.
    + now apply kept_ids_distinct.
    + now apply kept_ids_distinct.
    + now apply kept_ids_distinct.
    + intros d Hd. apply filter_In in Hd as [Hd Hk].
      destruct (Od d Hd) as (o & Ho & He). exists o. split; [|exact He].
      apply filter_In. split; [exact Ho|]. now rewrite He.
    + intros c Hc. apply filter_In in Hc as [Hc Hk].
      apply andb_true_iff in Hk as [Hk _].
      destruct (Oc c Hc) as (o & Ho & He). exists o. split; [|exact He].
      apply filter_In. split; [exact Ho|]. now rewrite He.
Qed.

(** X5.  In every state of the database the ids of the organizations, of
    the documents and of the chunks are pairwise distinct within their
    table, and every document and every chunk belongs to an organization
    that exists. *)
Theorem keys_and_owners_kept db :
  reachable db -> Integrity.keyed db /\ Integrity.owned db.
Proof.
  induction 1 as [|s st db db' _ IH Hexec].
  - repeat split; simpl; try constructor; intros ? [].
  - exact (exec_well_keyed s st db db' IH Hexec).
Qed.

End IntegrityFacts.

(* ================================================================== *)
(** * Statements on documents, chunks and organizations *)

Section StatementFacts.

Import Store.

Lemma filter_all {A} (keep : A -> bool) (l : list A) :
  (forall x, In x l -> keep x = true) -> filter keep l = l.
Proof.
  induction l as [|x l IH]; [reflexivity|]. intros H. simpl.
  rewrite (H x (or_introl eq_refl)). f_equal. apply IH.
  intros y Hy. apply H. now right.
Qed.

(** X6.  Deleting an organization is one statement that leaves a reachable
    state in which the organization, its documents, its chunks and the
    chunks of its documents are gone, and every other row is still there. *)
Theorem delete_orgs_removes_tenant s db id :
  reachable db ->
  exists db',
    exec s (DeleteOrgs id) db = inr db' /\ reachable db' /\
    (forall o, In o (orgs db') <-> In o (orgs db) /\ org_id o <> id) /\
    (forall d, In d (documents db') <->
               In d (documents db) /\ doc_org_id d <> id) /\
    (forall c, In c (document_chunks db') <->
               In c (document_chunks db) /\ dc_org_id c <> id /\
               forall d, In d (documents db) ->
                         doc_id d = dc_document_id c -> doc_org_id d <> id) /\
    (forall c, In c (document_chunks db') ->
               exists d, In d (documents db') /\ doc_id d = dc_document_id c).
Proof.
  intros Hr. exists (delete_orgs id db).
  assert (Hr' : reachable (delete_orgs id db))
    by now apply (reach_exec s (DeleteOrgs id) db).
  split; [reflexivity|]. split; [exact Hr'|]. split; [|split; [|split]].
  - intros o. simpl. rewrite filter_In, negb_true_iff, N.eqb_neq. tauto.
  - intros d. simpl. rewrite filter_In, negb_true_iff, N.eqb_neq. tauto.
  - intros c. simpl.
    rewrite filter_In, andb_true_iff, !negb_true_iff, N.eqb_neq,
      has_document_false.
    split.
    + intros (Hc & Ho & Hd). repeat split; try assumption.
      intros d Hin He Horg. apply (Hd d); [|exact He].
      apply filter_In. split; [exact Hin | now apply N.eqb_eq].
    + intros (Hc & Ho & Hd). repeat split; try assumption.
      intros d Hin He. apply filter_In in Hin as [Hin Horg].
      apply N.eqb_eq in Horg. exact (Hd d Hin He Horg).
  - apply (reachable_consistent _ Hr').
Qed.

(** X7.  An INSERT into [documents] that is accepted has added one row at
    the end of the table, with a fresh id; deleting that document again
    gives back the database as it was before the INSERT. *)
Theorem insert_then_delete_document s i db db' :
  reachable db -> insert_documents s i db = inr db' ->
  exists row,
    documents db' = documents db ++ [row] /\
    ~ In (doc_id row) (map doc_id (documents db)) /\
    delete_documents (doc_id row) db' = db.
Proof.
  intros Hr H. pose proof (reachable_consistent db Hr) as (_ & Hfk & _).
  apply insert_documents_row in H as (row & _ & _ & Hu & ->).
  rewrite has_document_false in Hu.
  exists row. split; [reflexivity|]. split.
  - intros Hin. apply in_map_iff in Hin as (d & He & Hd).
    exact (Hu d Hd He).
  - unfold delete_documents. simpl. destruct db as [os ds cs]. simpl in *.
    f_equal.
    + rewrite filter_app. simpl. rewrite N.eqb_refl. simpl.
      rewrite app_nil_r. apply filter_all. intros d Hd.
      apply negb_true_iff, N.eqb_neq. now apply Hu.
    + apply filter_all. intros c Hc.
      apply negb_true_iff, has_document_false. intros d Hd He.
      apply filter_In in Hd as [Hd Hid]. apply N.eqb_eq in Hid.
      destruct (Hfk c Hc) as (d0 & Hd0 & He0).
      apply (Hu d0 Hd0). congruence.
Qed.


(** X9.  A chunk is inserted only under a document and an organization
    that exist: an INSERT into [document_chunks] that is accepted has added
    one row at the end of the table, with a fresh id, the columns given,
    and a [document_id] and an [org_id] found in [documents] and [orgs]. *)
Theorem chunk_insert_needs_document s i db db' :
  insert_document_chunks s i db = inr db' ->
  exists row,
    document_chunks db' = document_chunks db ++ [row] /\
    documents db' = documents db /\ orgs db' = orgs db /\
    ~ In (dc_id row) (map dc_id (document_chunks db)) /\
    ci_document_id i = Some (dc_document_id row) /\
    ci_org_id i = Some (dc_org_id row) /\
    ci_text i = Some (dc_text row) /\
    ci_chunk_index i = Some (dc_chunk_index row) /\
    dc_embedding row = ci_embedding i /\
    (exists d, In d (documents db) /\ doc_id d = dc_document_id row) /\
    (exists o, In o (orgs db) /\ org_id o = dc_org_id row).
Proof.
  unfold insert_document_chunks, document_chunks_new_row.
  destruct (resolve (gen_random_uuid s) (ci_id i)) as [id|]; [|discriminate].
  destruct (ci_org_id i) as [org|]; [|discriminate].
  destruct (ci_document_id i) as [doc|]; [|discriminate].
  destruct (ci_chunk_index i) as [idx|]; [|discriminate].
  destruct (ci_text i) as [text|]; [|discriminate]. simpl.
  destruct (has_chunk (document_chunks db) id) eqn:Eu; [discriminate|].
  destruct (has_org db org) eqn:Eo; simpl; [|discriminate].
  destruct (has_document (documents db) doc) eqn:Ed; simpl; [|discriminate].
  intros H. injection H as <-. eexists. simpl.
  split; [reflexivity|]. do 2 (split; [reflexivity|]).
  split; [now apply has_chunk_false|].
  do 5 (split; [reflexivity|]). split.
  - now apply has_document_true.
  - now apply has_org_true.
Qed.

End StatementFacts.

(* ================================================================== *)
(** * No chunk is returned twice *)

Section SearchDistinct.

Variable cd : vector -> vector -> Q.

Lemma firstn_ids_distinct {A} (id : A -> uuid) (n : nat) (rows : list A) :
  NoDup (map id rows) -> NoDup (map id (firstn n rows)).
Proof.
  revert n. induction rows as [|r rows IH]; intros [|n] H; simpl;
    try constructor.
  - inversion H as [|? ? Hr Hrows]; subst. intros Hin. apply Hr.
    apply in_map_iff in Hin as (r' & He & Hr').
    apply in_map_iff. exists r'. split; [exact He|].
    eapply firstn_incl; eauto.
  - inversion H; subst. now apply IH.
Qed.

Lemma ranked_ids_distinct {A} (id : A -> uuid) (key : A -> option Q)
    (keep : A -> bool) (n : nat) (rows : list A) :
  NoDup (map id rows) ->
  NoDup (map id (firstn n (Sql.order_by key (filter keep rows)))).
Proof.
  intros H. apply firstn_ids_distinct.
  apply (Permutation_NoDup
           (l := map id (filter keep rows))).
  - apply Permutation_map, Permutation_sym, order_by_perm.
  - now apply kept_ids_distinct.
Qed.

(** X10.  In every state of the database, neither function returns a chunk
    twice: the ids of the rows returned are pairwise distinct. *)
Theorem returned_ids_distinct db qe thr cnt org :
  Store.reachable db ->
  (forall rows,
     Search.match_documents_schema cd db qe thr cnt org = inr rows ->
     NoDup (map Search.sm_id rows)) /\
  (forall rows,
     Search.match_documents_migration cd db qe thr cnt org = inr rows ->
     NoDup (map Search.mm_id rows)).
Proof.
  intros Hr.
  assert (Integrity.well_keyed db) as ((_ & _ & Kc) & _).
  { clear -Hr. induction Hr as [|s st db db' _ IH Hexec].
    - repeat split; simpl; try constructor; intros ? [].
    - exact (exec_well_keyed s st db db' IH Hexec). }
  pose proof (reachable_consistent db Hr) as Hc. split.
  - intros rows H. unfold Search.match_documents_schema in H.
    destruct (Sql.limit cnt _) as [e|l] eqn:El; [discriminate|].
    injection H as <-. apply limit_inr in El as (n & ->).
    rewrite map_map. simpl.
    now apply (ranked_ids_distinct dc_id).
  - intros rows H. unfold Search.match_documents_migration in H.
    destruct (Sql.limit cnt _) as [e|l] eqn:El; [discriminate|].
    injection H as <-. apply limit_inr in El as (n & ->).
    rewrite map_map.
    rewrite (map_ext _ (fun row => dc_id (fst row)))
      by (intros [dc d]; reflexivity).
    apply (ranked_ids_distinct (fun row => dc_id (fst row))).
    rewrite <- (map_map fst dc_id), (join_chunks db Hc). exact Kc.
Qed.

End SearchDistinct.

(* ================================================================== *)
(** * Row level security *)

Section RlsFacts.

Variable profiles : list Rls.profiles_row.
Variable uid : option uuid.

Lemma in_subquery_true (v : uuid) (rows : list (option uuid)) :
  Sql.holds (Rls.in_subquery (Some v) rows) = true <-> In (Some v) rows.
Proof.
  unfold Rls.in_subquery.
  destruct rows as [|r rows]; [simpl; split; [discriminate | intros []]|].
  set (l := r :: rows).
  destruct (existsb
              (fun r => match r with Some w => N.eqb v w | None => false end)
              l) eqn:E.
  - split; [intros _ | reflexivity].
    apply existsb_exists in E as ([w|] & Hin & He); [|discriminate].
    apply N.eqb_eq in He. now subst.
  - split.
    + destruct (existsb _ l); discriminate.
    + intros Hin.
      assert (existsb
                (fun r =>
                   match r with Some w => N.eqb v w | None => false end)
                l = true).
      { apply existsb_exists. exists (Some v). split; [exact Hin|].
        apply N.eqb_refl. }
      congruence.
Qed.

Lemma holds_true (c : Sql.cond) : Sql.holds c = true <-> c = Some true.
Proof.
  destruct c as [[|]|]; simpl; split; try discriminate; reflexivity.
Qed.

Lemma own_orgs_member (o : uuid) :
  In (Some o) (Rls.own_orgs profiles uid) <-> Rls.member_of profiles uid o.
Proof.
  unfold Rls.own_orgs, Rls.visible_profiles, Rls.member_of, Rls.is_user.
  rewrite in_map_iff. split.
  - intros (p & Ho & Hp). apply filter_In in Hp as [Hp Hid].
    apply filter_In in Hp as [Hp _].
    apply holds_true, eq_uuid_true in Hid. now exists p.
  - intros (p & Hp & Hu & Ho). exists p. split; [exact Ho|].
    apply filter_In. split.
    + apply filter_In. split; [exact Hp|].
      unfold Rls.view_own_profile. rewrite Hu. simpl.
      now rewrite N.eqb_refl.
    + rewrite Hu. simpl. now rewrite N.eqb_refl.
Qed.

Lemma admin_orgs_admin (o : uuid) :
  In (Some o) (Rls.admin_orgs profiles uid) <-> Rls.admin_of profiles uid o.
Proof.
  unfold Rls.admin_orgs, Rls.visible_profiles, Rls.admin_of, Rls.is_user.
  rewrite in_map_iff. split.
  - intros (p & Ho & Hp). apply filter_In in Hp as [Hp Hc].
    apply filter_In in Hp as [Hp _].
    apply holds_and3 in Hc as [Hid Hrole].
    apply eq_uuid_true in Hid. exists p. repeat split; try assumption.
    destruct (Rls.pr_role p) as [r|]; [|discriminate]. simpl in Hrole.
    injection Hrole as Hrole. apply String.eqb_eq in Hrole. now subst.
  - intros (p & Hp & Hu & Ho & Hrole). exists p. split; [exact Ho|].
    apply filter_In. split.
    + apply filter_In. split; [exact Hp|].
      unfold Rls.view_own_profile. rewrite Hu. simpl.
      now rewrite N.eqb_refl.
    + rewrite Hu, Hrole. simpl. now rewrite N.eqb_refl.
Qed.

Lemma visible_documents_In db d :
  In d (documents (Rls.visible profiles uid db)) <->
  In d (documents db) /\ Rls.member_of profiles uid (doc_org_id d).
Proof.
  simpl. unfold Rls.view_org_documents.
  now rewrite filter_In, in_subquery_true, own_orgs_member.
Qed.

Lemma visible_chunks_In db c :
  In c (document_chunks (Rls.visible profiles uid db)) <->
  In c (document_chunks db) /\ Rls.member_of profiles uid (dc_org_id c).
Proof.
  simpl. unfold Rls.view_org_chunks.
  now rewrite filter_In, in_subquery_true, own_orgs_member.
Qed.

(** X11.  Under row level security a user reads exactly the documents and
    the chunks of the organization of the user's own profile, and no row of
    [orgs]; without a session user nothing is read. *)
Theorem policies_show_own_organization db :
  (forall d, In d (documents (Rls.visible profiles uid db)) <->
             In d (documents db) /\
             Rls.member_of profiles uid (doc_org_id d)) /\
  (forall c, In c (document_chunks (Rls.visible profiles uid db)) <->
             In c (document_chunks db) /\
             Rls.member_of profiles uid (dc_org_id c)) /\
  orgs (Rls.visible profiles uid db) = [] /\
  (uid = None ->
   documents (Rls.visible profiles uid db) = [] /\
   document_chunks (Rls.visible profiles uid db) = []).
Proof.
  split; [apply visible_documents_In|].
  split; [apply visible_chunks_In|]. split; [reflexivity|].
  intros Hno. split.
  - destruct (documents (Rls.visible profiles uid db)) as [|d l] eqn:E;
      [reflexivity|].
    assert (H : In d (documents (Rls.visible profiles uid db)))
      by (rewrite E; now left).
    apply visible_documents_In in H as (_ & p & _ & Hu & _).
    unfold Rls.is_user in Hu. congruence.
  - destruct (document_chunks (Rls.visible profiles uid db)) as [|c l] eqn:E;
      [reflexivity|].
    assert (H : In c (document_chunks (Rls.visible profiles uid db)))
      by (rewrite E; now left).
    apply visible_chunks_In in H as (_ & p & _ & Hu & _).
    unfold Rls.is_user in Hu. congruence.
Qed.

Variable cd : vector -> vector -> Q.

(** X12.  Called by a user under row level security, each of the two
    functions returns only chunks of the user's organization, also when the
    tenant filter is NULL: every row returned comes from a chunk, and in
    the function of the migration from a document as well, that belongs to
    an organization of which the user is a member. *)
Theorem policies_scope_match_documents db qe thr cnt org :
  (forall rows,
     Search.match_documents_schema cd (Rls.visible profiles uid db)
       qe thr cnt org = inr rows ->
     forall r, In r rows ->
       exists dc,
         In dc (document_chunks db) /\ r = Search.schema_select cd qe dc /\
         Rls.member_of profiles uid (dc_org_id dc)) /\
  (forall rows,
     Search.match_documents_migration cd (Rls.visible profiles uid db)
       qe thr cnt org = inr rows ->
     forall r, In r rows ->
       exists dc d,
         In dc (document_chunks db) /\ In d (documents db) /\
         doc_id d = dc_document_id dc /\
         r = Search.migration_select cd qe (dc, d) /\
         Rls.member_of profiles uid (dc_org_id dc) /\
         Rls.member_of profiles uid (doc_org_id d)).
Proof.
  split.
  - intros rows H r Hr. unfold Search.match_documents_schema in H.
    destruct (Sql.limit cnt _) as [e|l] eqn:El; [discriminate|].
    injection H as <-. apply limit_inr in El as (n & ->).
    apply in_map_iff in Hr as (dc & <- & Hdc).
    apply firstn_incl, schema_ranked_In in Hdc as [Hdc _].
    apply visible_chunks_In in Hdc as [Hdc Hm]. now exists dc.
  - intros rows H r Hr. unfold Search.match_documents_migration in H.
    destruct (Sql.limit cnt _) as [e|l] eqn:El; [discriminate|].
    injection H as <-. apply limit_inr in El as (n & ->).
    apply in_map_iff in Hr as ([dc d] & <- & Hrow).
    apply firstn_incl, migration_ranked_In in Hrow as [Hrow _].
    apply join_In in Hrow as (Hdc & Hd & Hid).
    apply visible_chunks_In in Hdc as [Hdc Hmc].
    apply visible_documents_In in Hd as [Hd Hmd].
    exists dc, d. now repeat split.
Qed.

Lemma delete_target db id d :
  In d (documents db) ->
  (N.eqb (doc_id d) id
   && Sql.holds (Rls.view_org_documents profiles uid d)
   && Sql.holds (Rls.delete_org_documents profiles uid d) = true
   <-> doc_id d = id /\ Rls.admin_of profiles uid (doc_org_id d)).
Proof.
  intros _. unfold Rls.view_org_documents, Rls.delete_org_documents.
  rewrite !andb_true_iff, !in_subquery_true, own_orgs_member,
    admin_orgs_admin, N.eqb_eq.
  split; [tauto|]. intros (He & Ha). repeat split; try assumption.
  destruct Ha as (p & Hp & Hu & Ho & _). now exists p.
Qed.

(** X13.  Under row level security a DELETE on [documents] removes a
    document only for an admin of the document's organization, together
    with the chunks of the documents it removes; for any other user it
    leaves the database as it is. *)
Theorem only_admins_delete_documents db id :
  (forall d, In d (documents (Rls.delete_documents_as profiles uid id db)) <->
             In d (documents db) /\
             ~ (doc_id d = id /\ Rls.admin_of profiles uid (doc_org_id d))) /\
  (forall c,
     In c (document_chunks (Rls.delete_documents_as profiles uid id db)) <->
     In c (document_chunks db) /\
     forall d, In d (documents db) -> doc_id d = dc_document_id c ->
               ~ (doc_id d = id /\ Rls.admin_of profiles uid (doc_org_id d))) /\
  ((forall o, ~ Rls.admin_of profiles uid o) ->
   Rls.delete_documents_as profiles uid id db = db).
Proof.
  split; [|split].
  - intros d. simpl. rewrite filter_In. split.
    + intros [Hd Hk]. split; [exact Hd|]. intros Ht.
      apply (delete_target db id d Hd) in Ht.
      rewrite Ht in Hk. discriminate.
    + intros [Hd Hn]. split; [exact Hd|]. apply negb_true_iff.
      destruct (_ && _) eqn:E; [|reflexivity].
      apply (delete_target db id d Hd) in E. contradiction.
  - intros c. simpl. rewrite filter_In, negb_true_iff, has_document_false.
    split.
    + intros [Hc Hk]. split; [exact Hc|]. intros d Hd He Ht.
      apply (Hk d); [|exact He]. apply filter_In. split; [exact Hd|].
      now apply (delete_target db id d Hd).
    + intros [Hc Hk]. split; [exact Hc|]. intros d Hd He.
      apply filter_In in Hd as [Hd Ht].
      apply (delete_target db id d Hd) in Ht. exact (Hk d Hd He Ht).
  - intros Hno. unfold Rls.delete_documents_as.
    assert (Hnone : forall d, In d (documents db) ->
              N.eqb (doc_id d) id
              && Sql.holds (Rls.view_org_documents profiles uid d)
              && Sql.holds (Rls.delete_org_documents profiles uid d)
              = false).
    { intros d Hd. destruct (_ && _) eqn:E; [|reflexivity].
      apply (delete_target db id d Hd) in E as [_ Ha].
      now elim (Hno (doc_org_id d)). }
    rewrite (filter_none _ _ Hnone). destruct db as [os ds cs]. simpl in *.
    f_equal.
    + apply filter_all. intros d Hd. now rewrite (Hnone d Hd).
    + now apply filter_all.
Qed.


End RlsFacts.

(* ================================================================== *)
(** * The chat history and the feedback *)

Section ChatStoreFacts.

Import ChatStore.

Lemma has_session_true c id :
  has_session c id = true <-> exists s, In s (chat_sessions c) /\ cs_id s = id.
Proof.
  unfold has_session. rewrite existsb_exists.
  split; intros (s & Hs & He); exists s; split; auto; now apply N.eqb_eq.
Qed.

Lemma role_check_true role :
  role_check (Some role) = true <-> In role message_roles.
Proof.
  unfold role_check. simpl.
  destruct (String.eqb_spec role "user") as [->|H1]; simpl.
  - split; auto.
  - destruct (String.eqb_spec role "assistant") as [->|H2]; simpl.
    + split; auto.
    + split; [discriminate|]. intros [H|[H|[]]]; congruence.
Qed.

Lemma gone_true (deleted : list chat_sessions_row) id :
  existsb (fun s => N.eqb (cs_id s) id) deleted = true <->
  exists s, In s deleted /\ cs_id s = id.
Proof.
  rewrite existsb_exists.
  split; intros (s & Hs & He); exists s; split; auto; now apply N.eqb_eq.
Qed.

Lemma cascade_constrained (p : chat_sessions_row -> bool) c :
  constrained c ->
  constrained
    (cascade (filter p (chat_sessions c)) c
       (filter (fun s => negb (p s)) (chat_sessions c))).
Proof.
  intros [Hm Hf]. split; simpl.
  - intros m Hin. apply filter_In in Hin as [Hin Hk].
    destruct (Hm m Hin) as (Hrole & s & Hs & He). split; [exact Hrole|].
    exists s. split; [|exact He]. apply filter_In. split; [exact Hs|].
    destruct (p s) eqn:Ep; [|reflexivity].
    apply negb_true_iff in Hk.
    assert (existsb (fun s => N.eqb (cs_id s) (cm_session_id m))
              (filter p (chat_sessions c)) = true).
    { apply gone_true. exists s. split; [|exact He].
      apply filter_In. now split. }
    congruence.
  - intros f Hin. apply filter_In in Hin as [Hin Hk].
    destruct (Hf f Hin) as (Hscore & Href). split; [exact Hscore|].
    destruct Href as [Hnone|(s & Hs & He)]; [now left|]. right.
    exists s. split; [|exact He]. apply filter_In. split; [exact Hs|].
    destruct (p s) eqn:Ep; [|reflexivity].
    rewrite <- He in Hk. apply negb_true_iff in Hk.
    assert (existsb (fun s0 => N.eqb (cs_id s0) (cs_id s))
              (filter p (chat_sessions c)) = true).
    { apply gone_true. exists s. split; [|reflexivity].
      apply filter_In. now split. }
    congruence.
Qed.

Lemma exec_constrained s st c c' :
  constrained c -> exec s st c = inr c' -> constrained c'.
Proof.
  intros [Hm Hf]. destruct st; simpl.
  - unfold insert_chat_sessions.
    destruct (chat_sessions_new_row s i) as [row|]; [|discriminate].
    destruct (has_session c (cs_id row)); [discriminate|].
    destruct (Store.has_org db (cs_org_id row)); [|discriminate]. simpl.
    intros H. injection H as <-. split; simpl.
    + intros m Hin. destruct (Hm m Hin) as (Hrole & s0 & Hs & He).
      split; [exact Hrole|]. exists s0.
      split; [apply in_or_app; now left | exact He].
    + intros f Hin. destruct (Hf f Hin) as (Hscore & Href).
      split; [exact Hscore|].
      destruct Href as [Hnone|(s0 & Hs & He)]; [now left|]. right.
      exists s0. split; [apply in_or_app; now left | exact He].
  - unfold insert_chat_messages.
    destruct (chat_messages_new_row s i) as [row|]; [|discriminate].
    destruct (role_check (Some (cm_role row))) eqn:Er; [|discriminate].
    simpl. destruct (existsb _ (chat_messages c)); [discriminate|].
    destruct (has_session c (cm_session_id row)) eqn:Es; [|discriminate].
    simpl. intros H. injection H as <-. split; simpl; [|exact Hf].
    intros m Hin. apply in_app_or in Hin as [Hin|[<-|[]]]; [now apply Hm|].
    split; [now apply role_check_true | now apply has_session_true].
  - unfold insert_chat_feedback.
    destruct (chat_feedback_new_row s i) as [row|]; [|discriminate].
    destruct (Feedback.score_check (Some (Feedback.fb_score row))) eqn:Ec;
      [|discriminate].
    simpl. destruct (existsb _ (chat_feedback c)); [discriminate|].
    destruct (match Feedback.fb_session_id row with
              | Some sid => negb (has_session c sid)
              | None => false
              end) eqn:Es; [discriminate|].
    intros H. injection H as <-. split; simpl; [exact Hm|].
    intros f Hin. apply in_app_or in Hin as [Hin|[<-|[]]]; [now apply Hf|].
    split; [now apply score_check_range|].
    destruct (Feedback.fb_session_id row) as [sid|]; [|now left]. right.
    apply negb_false_iff, has_session_true in Es as (s0 & Hs & He).
    exists s0. split; [exact Hs | now rewrite He].
  - intros H. injection H as <-.
    apply (cascade_constrained (fun s => N.eqb (cs_id s) id) c).
    now split.
  - intros H. injection H as <-.
    apply (cascade_constrained (fun s => N.eqb (cs_org_id s) org) c).
    now split.
Qed.

(** X15.  In every state of the chat tables each message has the role user
    or assistant and belongs to a session that exists, and each feedback
    has a score from 1 to 5 and a session that exists, or none. *)
Theorem chat_rows_constrained c : reachable c -> constrained c.
Proof.
  induction 1 as [|s st c c' _ IH Hexec].
  - split; intros ? [].
  - exact (exec_constrained s st c c' IH Hexec).
Qed.

(** X16.  Deleting a chat session removes, in the same statement, the
    session, its messages and the feedback given on it, and nothing else:
    feedback is not kept once its session is deleted. *)
Theorem delete_session_cascades c id :
  reachable c ->
  (forall s, In s (chat_sessions (delete_chat_sessions id c)) <->
             In s (chat_sessions c) /\ cs_id s <> id) /\
  (forall m, In m (chat_messages (delete_chat_sessions id c)) <->
             In m (chat_messages c) /\ cm_session_id m <> id) /\
  (forall f, In f (chat_feedback (delete_chat_sessions id c)) <->
             In f (chat_feedback c) /\ Feedback.fb_session_id f <> Some id).
Proof.
  intros Hr.
  assert (constrained c) as [Hm Hf].
  { clear -Hr. induction Hr as [|s st c c' _ IH Hexec].
    - split; intros ? [].
    - exact (exec_constrained s st c c' IH Hexec). }
  split; [|split].
  - intros s. simpl. rewrite filter_In, negb_true_iff, N.eqb_neq. tauto.
  - intros m. simpl. rewrite filter_In, negb_true_iff. split.
    + intros [Hin Hk]. split; [exact Hin|]. intros He.
      destruct (Hm m Hin) as (_ & s & Hs & Hid).
      assert (existsb (fun s0 => N.eqb (cs_id s0) (cm_session_id m))
                (filter (fun s0 => N.eqb (cs_id s0) id) (chat_sessions c))
              = true).
      { apply gone_true. exists s. split; [|exact Hid].
        apply filter_In. split; [exact Hs|]. apply N.eqb_eq. congruence. }
      congruence.
    + intros [Hin Hne]. split; [exact Hin|].
      destruct (existsb _ _) eqn:E; [|reflexivity].
      apply gone_true in E as (s & Hs & He).
      apply filter_In in Hs as [_ Hs]. apply N.eqb_eq in Hs. congruence.
  - intros f. simpl. rewrite filter_In. split.
    + intros [Hin Hk]. split; [exact Hin|]. intros He. rewrite He in Hk.
      destruct (Hf f Hin) as (_ & [Hnone|(s & Hs & Hid)]); [congruence|].
      apply negb_true_iff in Hk.
      assert (existsb (fun s0 => N.eqb (cs_id s0) id)
                (filter (fun s0 => N.eqb (cs_id s0) id) (chat_sessions c))
              = true).
      { apply gone_true. exists s. split; [|congruence].
        apply filter_In. split; [exact Hs|]. apply N.eqb_eq. congruence. }
      congruence.
    + intros [Hin Hne]. split; [exact Hin|].
      destruct (Feedback.fb_session_id f) as [sid|]; [|reflexivity].
      apply negb_true_iff.
      destruct (existsb _ _) eqn:E; [|reflexivity].
      apply gone_true in E as (s & Hs & He).
      apply filter_In in Hs as [_ Hs]. apply N.eqb_eq in Hs. congruence.
Qed.

End ChatStoreFacts.

(* ================================================================== *)
(** * A conversation on the chat page *)

Section ConversationFacts.

Import Chat Conversation.

Lemma visible_not_space c : visible c = true -> ascii_space c = false.
Proof.
  unfold visible, ascii_space. intros H.
  apply andb_true_iff in H as [H1 H2].
  apply N.leb_le in H1, H2.
  destruct (N.leb_spec 9 (N_of_ascii c)), (N.leb_spec (N_of_ascii c) 13),
    (N.eqb_spec (N_of_ascii c) 32); simpl; try reflexivity; lia.
Qed.

Lemma visible_not_byte c n :
  visible c = true -> (127 <= n)%N -> byte_is c n = false.
Proof.
  unfold visible, byte_is. intros H Hn.
  apply andb_true_iff in H as [_ H]. apply N.leb_le in H.
  apply N.eqb_neq. lia.
Qed.

Lemma blank_step c r :
  blank (String c r) =
  if ascii_space c then blank r
  else
    match r with
    | String c1 r1 =>
        if byte_is c 194 && byte_is c1 160 then blank r1
        else
          match r1 with
          | String c2 r2 =>
              if byte_is c 225 && byte_is c1 154 && byte_is c2 128
                 || byte_is c 226 && byte_is c1 128
                    && ((128 <=? N_of_ascii c2) && (N_of_ascii c2 <=? 138)
                        || (N_of_ascii c2 =? 168) || (N_of_ascii c2 =? 169)
                        || (N_of_ascii c2 =? 175))%N
                 || byte_is c 226 && byte_is c1 129 && byte_is c2 159
                 || byte_is c 227 && byte_is c1 128 && byte_is c2 128
                 || byte_is c 239 && byte_is c1 187 && byte_is c2 191
              then blank r2
              else false
          | EmptyString => false
          end
    | EmptyString => false
    end.
Proof. reflexivity. Qed.

Lemma visible_text_not_blank (n : nat) :
  forall s, (String.length s <= n)%nat ->
            some_char visible s = true -> blank s = false.
Proof.
  induction n as [|n IH]; intros [|c r] Hlen Hv; simpl in Hlen, Hv;
    try discriminate; try lia.
  rewrite blank_step.
  destruct (visible c) eqn:Ec.
  - rewrite (visible_not_space c Ec).
    destruct r as [|c1 r1]; [reflexivity|].
    rewrite !(visible_not_byte c _ Ec) by lia. simpl.
    destruct r1 as [|c2 r2]; reflexivity.
  - simpl in Hv.
    destruct (ascii_space c); [apply IH; [lia | exact Hv]|].
    destruct r as [|c1 r1]; [reflexivity|].
    destruct (byte_is c 194 && byte_is c1 160) eqn:E2.
    + apply andb_true_iff in E2 as [_ E2]. simpl in Hv, Hlen.
      destruct (visible c1) eqn:Ec1.
      * rewrite (visible_not_byte c1 160 Ec1) in E2 by lia. discriminate.
      * apply IH; [lia | exact Hv].
    + destruct r1 as [|c2 r2]; [reflexivity|].
      match goal with |- (if ?b then _ else _) = _ => destruct b eqn:E3 end;
        [|reflexivity].
      simpl in Hv, Hlen.
      destruct (visible c1) eqn:Ec1.
      * rewrite !(visible_not_byte c1 _ Ec1) in E3 by lia.
        rewrite !andb_false_r in E3. discriminate.
      * destruct (visible c2) eqn:Ec2.
        -- rewrite !(visible_not_byte c2 _ Ec2) in E3 by lia.
           unfold visible in Ec2. apply andb_true_iff in Ec2 as [_ Ec2].
           apply N.leb_le in Ec2.
           replace (128 <=? N_of_ascii c2)%N with false in E3
             by (symmetry; apply N.leb_gt; lia).
           replace (N_of_ascii c2 =? 168)%N with false in E3
             by (symmetry; apply N.eqb_neq; lia).
           replace (N_of_ascii c2 =? 169)%N with false in E3
             by (symmetry; apply N.eqb_neq; lia).
           replace (N_of_ascii c2 =? 175)%N with false in E3
             by (symmetry; apply N.eqb_neq; lia).
           rewrite !andb_false_r in E3. discriminate.
        -- apply IH; [lia | exact Hv].
Qed.

Lemma white_space_blank s : every_char ascii_space s = true -> blank s = true.
Proof.
  induction s as [|c r IH]; [reflexivity|]. simpl every_char. intros H.
  apply andb_true_iff in H as [Hc Hr]. rewrite blank_step, Hc. now apply IH.
Qed.

(** X17.  [handleSend] sends every text that contains a printable ASCII
    character other than the space: the user's message and one assistant
    message are added.  A text made only of spaces, tabs and line breaks,
    the empty text included, is not sent: the state is left as it is. *)
Theorem handleSend_sends_visible_text t0 t1 backend st :
  (some_char visible (inputValue st) = true ->
   messages (handleSend t0 t1 backend st)
   = messages st
       ++ [userMessage t0 st;
           assistant_message t1 (backend (chat_request t0 st))] /\
   inputValue (handleSend t0 t1 backend st) = ""%string /\
   isTyping (handleSend t0 t1 backend st) = false) /\
  (every_char ascii_space (inputValue st) = true ->
   handleSend t0 t1 backend st = st).
Proof.
  split.
  - intros Hv.
    pose proof (visible_text_not_blank _ _ (le_n _) Hv) as Hb.
    unfold handleSend. rewrite Hb. simpl.
    rewrite <- app_assoc. now repeat split.
  - intros Hw. unfold handleSend. now rewrite (white_space_blank _ Hw).
Qed.





End ConversationFacts.

(* ================================================================== *)
(** * The documents page *)

Section DocumentsFacts.

Import Documents.

Local Open Scope N_scope.

Lemma digits_in_enough (f : nat) :
  forall (g : nat) (n : N),
    n < 2 ^ N.of_nat f -> n < 2 ^ N.of_nat g ->
    digits_in f n = digits_in g n.
Proof.
  induction f as [|f IH]; intros g n Hf Hg.
  - simpl in Hf. assert (n = 0) by lia. subst.
    now destruct g.
  - destruct g as [|g].
    + simpl in Hg. assert (n = 0) by lia. now subst.
    + simpl. destruct (N.ltb_spec n 10) as [_|H10]; [reflexivity|].
      f_equal. rewrite Nat2N.inj_succ, N.pow_succ_r' in Hf, Hg.
      apply IH.
      * apply N.Div0.div_lt_upper_bound. lia.
      * apply N.Div0.div_lt_upper_bound. lia.
Qed.

Lemma digits_small n : n < 10 -> digits n = String (digit n) "".
Proof.
  intros H. unfold digits. destruct (N.to_nat (N.size n)); simpl;
    [reflexivity|].
  now destruct (N.ltb_spec n 10); [|lia].
Qed.

Lemma digits_step n :
  10 <= n -> digits n = (digits (n / 10) ++ String (digit n) "")%string.
Proof.
  intros H. unfold digits.
  pose proof (N.size_gt n) as Hn.
  destruct (N.to_nat (N.size n)) as [|k] eqn:Ek.
  - assert (N.size n = 0) by lia. rewrite H0 in Hn. simpl in Hn. lia.
  - simpl. destruct (N.ltb_spec n 10) as [|_]; [lia|]. f_equal.
    apply digits_in_enough.
    + apply N.Div0.div_lt_upper_bound.
      rewrite <- (N2Nat.id (N.size n)), Ek, Nat2N.inj_succ,
        N.pow_succ_r' in Hn. lia.
    + rewrite N2Nat.id. apply N.size_gt.
Qed.

Lemma value_from_snoc s : forall acc c,
  value_from acc (s ++ String c "") = 10 * value_from acc s + digit_value c.
Proof.
  induction s as [|a s IH]; intros acc c; simpl; [reflexivity | apply IH].
Qed.

Lemma digit_value_digit n : digit_value (digit n) = n mod 10.
Proof.
  unfold digit_value, digit.
  assert (n mod 10 < 10) by (apply N.mod_lt; lia).
  rewrite N_ascii_embedding by lia.
  rewrite N.add_comm. apply N.add_sub.
Qed.

(** The decimal text of a natural number reads back as the number: the
    digits that the page prints for a size denote that size. *)
Lemma digits_read_back n : value (digits n) = n.
Proof.
  induction n as [n IH] using (well_founded_induction N.lt_wf_0).
  destruct (N.lt_ge_cases n 10) as [H|H].
  - rewrite (digits_small n H). unfold value. simpl.
    rewrite digit_value_digit. apply N.mod_small. exact H.
  - rewrite (digits_step n H). unfold value. rewrite value_from_snoc.
    fold (value (digits (n / 10))). rewrite IH.
    + rewrite digit_value_digit. symmetry. apply N.div_mod'.
    + apply N.div_lt; lia.
Qed.

Lemma length_snoc s c :
  String.length (s ++ String c "") = S (String.length s).
Proof. induction s as [|a s IH]; simpl; [reflexivity | now rewrite IH]. Qed.

Lemma substring_head (a b : string) :
  substring 0 (String.length a) (a ++ b) = a.
Proof.
  induction a as [|c a IH]; simpl; [now destruct b | now rewrite IH].
Qed.

Lemma substring_tail (a b : string) (k : nat) :
  k = String.length b -> substring (String.length a) k (a ++ b) = b.
Proof.
  intros ->. induction a as [|c a IH]; simpl; [|exact IH].
  induction b as [|c b IHb]; simpl; [reflexivity | now rewrite IHb].
Qed.

Lemma append_assoc (a b c : string) :
  ((a ++ b) ++ c)%string = (a ++ (b ++ c))%string.
Proof. induction a as [|x a IH]; simpl; [reflexivity | now rewrite IH]. Qed.

(** With at least [f + 1] digits, [toFixed] puts the point before the last
    [f] digits. *)
Lemma toFixed_one num den :
  let n := (2 * num * 10 + den) / (2 * den) in
  10 <= n ->
  toFixed 1 num den
  = (digits (n / 10) ++ "." ++ String (digit n) "")%string.
Proof.
  intros n Hn. unfold toFixed. change (10 ^ N.of_nat 1) with 10. fold n.
  rewrite (digits_step n Hn).
  set (a := digits (n / 10)). rewrite length_snoc.
  replace (S (String.length a) <=? 1)%nat with false.
  - cbv zeta. rewrite !length_snoc.
    replace (S (String.length a) - 1)%nat with (String.length a) by lia.
    rewrite substring_head.
    rewrite (substring_tail a (String (digit n) "")) by reflexivity.
    reflexivity.
  - symmetry. apply Nat.leb_gt.
    assert (String.length a <> 0)%nat; [|lia].
    unfold a. destruct (N.lt_ge_cases (n / 10) 10) as [H|H].
    + now rewrite digits_small.
    + rewrite digits_step by exact H. rewrite length_snoc. lia.
Qed.

Lemma toFixed_two num den :
  let n := (2 * num * 100 + den) / (2 * den) in
  100 <= n ->
  toFixed 2 num den
  = (digits (n / 100) ++ "."
       ++ String (digit (n / 10)) (String (digit n) ""))%string.
Proof.
  intros n Hn. unfold toFixed. change (10 ^ N.of_nat 2) with 100. fold n.
  assert (H10 : 10 <= n / 10) by (apply N.div_le_lower_bound; lia).
  rewrite (digits_step n) by lia. rewrite (digits_step (n / 10) H10).
  rewrite N.Div0.div_div. change (10 * 10) with 100.
  set (a := digits (n / 100)).
  rewrite append_assoc. simpl (String _ "" ++ _)%string.
  set (b := String (digit (n / 10)) (String (digit n) "")).
  assert (Hlen : String.length (a ++ b) = (String.length a + 2)%nat).
  { unfold b. clear. induction a as [|x a IH]; simpl; [reflexivity|].
    now rewrite IH. }
  rewrite Hlen.
  replace (String.length a + 2 <=? 2)%nat with false.
  - cbv zeta. rewrite !Hlen.
    replace (String.length a + 2 - 2)%nat with (String.length a) by lia.
    rewrite substring_head.
    rewrite (substring_tail a b) by reflexivity. reflexivity.
  - symmetry. apply Nat.leb_gt.
    assert (String.length a <> 0)%nat; [|lia].
    unfold a. destruct (N.lt_ge_cases (n / 100) 10) as [H|H].
    + now rewrite digits_small.
    + rewrite digits_step by exact H. rewrite length_snoc. lia.
Qed.

End DocumentsFacts.

Section DocumentsPage.

Import Documents.

(** X19.  [formatSize] shows a size below 1024 in bytes, exactly; a size
    from 1024 up to 1048575 in KB with one decimal, the nearest tenth of a
    KB (half up), so at most 0.05 KB off and at most "1024.0 KB"; a larger
    size in MB with two decimals, the nearest hundredth of a MB. *)
Theorem formatSize_rounds (bytes : Z) :
  (0 < bytes < 1024 ->
   formatSize bytes = (digits (Z.to_N bytes) ++ " B")%string) /\
  (1024 <= bytes < 1048576 ->
   exists n : N,
     formatSize bytes
     = (digits (n / 10) ++ "." ++ String (digit n) " KB")%string /\
     (10 <= n <= 10240)%N /\
     - 512 < 1024 * Z.of_N n - 10 * bytes <= 512) /\
  (1048576 <= bytes ->
   exists n : N,
     formatSize bytes
     = (digits (n / 100) ++ "."
          ++ String (digit (n / 10)) (String (digit n) " MB"))%string /\
     (100 <= n)%N /\
     - 524288 < 1048576 * Z.of_N n - 100 * bytes <= 524288).
Proof.
  split; [|split].
  - intros H. unfold formatSize, number_text.
    destruct (Z.eqb_spec bytes 0); [lia|].
    destruct (Z.ltb_spec bytes 1024); [|lia].
    destruct (Z.ltb_spec bytes 0); [lia | reflexivity].
  - intros H. unfold formatSize.
    destruct (Z.eqb_spec bytes 0) as [|H0]; [lia|].
    destruct (Z.ltb_spec bytes 1024) as [|H1]; [lia|].
    destruct (Z.ltb_spec bytes (1024 * 1024)) as [H2|]; [|lia].
    set (b := Z.to_N bytes). set (n := ((2 * b * 10 + 1024) / (2 * 1024))%N).
    assert (Hb : Z.of_N b = bytes) by (unfold b; lia).
    pose proof (N.div_mod' (2 * b * 10 + 1024) (2 * 1024)) as Hdiv.
    assert (Hmod : ((2 * b * 10 + 1024) mod (2 * 1024) < 2 * 1024)%N)
      by now apply N.mod_lt.
    fold n in Hdiv.
    set (r := ((2 * b * 10 + 1024) mod (2 * 1024))%N) in *.
    assert (Hn : (10 <= n <= 10240)%N) by lia.
    exists n. split; [|split; [exact Hn | lia]].
    rewrite (toFixed_one b 1024) by (fold n; lia). fold n.
    rewrite !append_assoc. reflexivity.
  - intros H. unfold formatSize.
    destruct (Z.eqb_spec bytes 0) as [|H0]; [lia|].
    destruct (Z.ltb_spec bytes 1024) as [|H1]; [lia|].
    destruct (Z.ltb_spec bytes (1024 * 1024)) as [|H2]; [lia|].
    set (b := Z.to_N bytes).
    set (n := ((2 * b * 100 + 1024 * 1024) / (2 * (1024 * 1024)))%N).
    assert (Hb : Z.of_N b = bytes) by (unfold b; lia).
    pose proof (N.div_mod' (2 * b * 100 + 1024 * 1024) (2 * (1024 * 1024)))
      as Hdiv.
    assert (Hmod : ((2 * b * 100 + 1024 * 1024) mod (2 * (1024 * 1024))
                    < 2 * (1024 * 1024))%N)
      by now apply N.mod_lt.
    fold n in Hdiv.
    set (r := ((2 * b * 100 + 1024 * 1024) mod (2 * (1024 * 1024)))%N) in *.
    assert (Hn : (100 <= n)%N) by lia.
    exists n. split; [|split; [exact Hn | lia]].
    rewrite (toFixed_two b (1024 * 1024)) by (fold n; lia). fold n.
    rewrite !append_assoc. reflexivity.
Qed.

Lemma split_cons sep s : exists h t, split sep s = h :: t.
Proof.
  destruct s as [|c r]; simpl; [now exists ""%string, []|].
  destruct (Ascii.eqb c sep); [now eexists; eexists|].
  destruct (split sep r); now eexists; eexists.
Qed.

(** [split] and [join] are inverse: the segments of a text, put together
    with the separator between them, are the text. *)
Lemma split_join sep s : String.concat (String sep "") (split sep s) = s.
Proof.
  induction s as [|c r IH]; [reflexivity|]. cbn [split].
  destruct (split_cons sep r) as (h & t & Hr). rewrite Hr in IH |- *.
  destruct (Ascii.eqb_spec c sep) as [->|Hne].
  - change (String.concat (String sep "") ("" :: h :: t))%string
      with ("" ++ String sep "" ++ String.concat (String sep "") (h :: t))%string.
    now rewrite IH.
  - destruct t as [|b t].
    + simpl in *. now rewrite IH.
    + change (String.concat (String sep "") (String c h :: b :: t))
        with (String c h ++ String sep ""
                ++ String.concat (String sep "") (b :: t))%string.
      change (String.concat (String sep "") (h :: b :: t))
        with (h ++ String sep ""
                ++ String.concat (String sep "") (b :: t))%string in IH.
      simpl. now rewrite <- IH.
Qed.

Lemma split_segments sep s :
  Forall (fun seg => Conversation.some_char (fun c => Ascii.eqb c sep) seg
                     = false)
    (split sep s).
Proof.
  induction s as [|c r IH]; simpl; [now repeat constructor|].
  destruct (Ascii.eqb c sep) eqn:E; [now constructor|].
  destruct (split sep r) as [|h t].
  - constructor; [simpl; now rewrite E | constructor].
  - inversion IH; subst. constructor; [|assumption]. simpl. now rewrite E.
Qed.

Lemma split_plain sep s :
  Conversation.some_char (fun c => Ascii.eqb c sep) s = false ->
  split sep s = [s].
Proof.
  induction s as [|c r IH]; [reflexivity|]. simpl. intros H.
  apply orb_false_iff in H as [Hc Hr]. rewrite Hc, (IH Hr). reflexivity.
Qed.

Lemma concat_last sep (l : list string) (x : string) :
  l <> [] ->
  String.concat sep (l ++ [x])
  = (String.concat sep l ++ sep ++ x)%string.
Proof.
  induction l as [|a l IH]; [congruence|]. intros _.
  destruct l as [|b l].
  - reflexivity.
  - change ((a :: b :: l) ++ [x]) with (a :: ((b :: l) ++ [x])).
    change (String.concat sep (a :: (b :: l) ++ [x]))
      with (a ++ sep ++ String.concat sep ((b :: l) ++ [x]))%string.
    rewrite IH by discriminate.
    change (String.concat sep (a :: b :: l))
      with (a ++ sep ++ String.concat sep (b :: l))%string.
    now rewrite !append_assoc.
Qed.

(** X20.  The type shown for a document is what follows the last dot of
    its file name: it contains no dot; a name without dot is its own type;
    any other name is a stem, a dot and the type. *)
Theorem file_type_follows_last_dot (name : string) :
  Conversation.some_char is_dot (file_type name) = false /\
  (Conversation.some_char is_dot name = false -> file_type name = name) /\
  (Conversation.some_char is_dot name = true ->
   exists stem, name = (stem ++ "." ++ file_type name)%string).
Proof.
  unfold file_type, is_dot. split; [|split].
  - pose proof (split_segments "." name) as H.
    destruct (split_cons "." name) as (h & t & Hs). rewrite Hs in *.
    rewrite Forall_forall in H. apply H.
    destruct (exists_last (l := h :: t)) as (l & x & Hl); [discriminate|].
    rewrite Hl, last_last. apply in_or_app. right. now left.
  - intros H. now rewrite (split_plain "." name H).
  - intros H. pose proof (split_join "." name) as Hj.
    pose proof (split_segments "." name) as Hseg.
    destruct (split_cons "." name) as (h & t & Hs).
    destruct (exists_last (l := h :: t)) as (l & x & Hl); [discriminate|].
    rewrite Hs. rewrite Hs in Hj, Hseg.
    rewrite Hl. rewrite Hl in Hj, Hseg. rewrite last_last.
    destruct l as [|a l].
    + simpl in Hj, Hseg. inversion Hseg as [|? ? Hx _]; subst. congruence.
    + rewrite concat_last in Hj by discriminate.
      exists (String.concat "." (a :: l)). now rewrite <- Hj.
Qed.

Lemma handleFiles_fold uploads : forall docs,
  handleFiles uploads docs
  = rev (map entry_of (filter succeeded uploads)) ++ docs.
Proof.
  unfold handleFiles.
  induction uploads as [|[[f t] r] us IH]; intros docs; [reflexivity|].
  simpl fold_left. rewrite IH. unfold succeeded. simpl.
  destruct r as [|[data|]]; try reflexivity.
  destruct (up_success data); [|reflexivity].
  simpl. now rewrite <- app_assoc.
Qed.

(** X21.  [handleFiles] leaves the documents already listed as they are
    and puts in front of them one entry for each file whose upload
    succeeded, the file uploaded last first; a file whose upload is
    rejected, or answered without success, adds nothing. *)
Theorem handleFiles_lists_successes uploads docs :
  handleFiles uploads docs
  = rev (map entry_of (filter succeeded uploads)) ++ docs /\
  List.length (handleFiles uploads docs)
  = (List.length (filter succeeded uploads) + List.length docs)%nat /\
  (forall e, In e (handleFiles uploads docs) ->
     In e docs \/
     exists f t data,
       In (f, t, UploadResolved (Some data)) uploads /\
       up_success data = true /\ e = uploaded f t data).
Proof.
  rewrite handleFiles_fold. split; [reflexivity|]. split.
  - now rewrite length_app, length_rev, length_map.
  - intros e He. apply in_app_or in He as [He|He]; [|now left]. right.
    apply in_rev, in_map_iff in He as ([[f t] r] & <- & Hu).
    apply filter_In in Hu as [Hu Hs]. unfold succeeded in Hs. simpl in Hs.
    destruct r as [|[data|]]; try discriminate.
    exists f, t, data. now repeat split.
Qed.

End DocumentsPage.

(* ================================================================== *)
(** * Signing in *)

(** X22.  After any sequence of submitted login forms and sign-outs, the
    application is authenticated exactly when it holds a user, which is
    exactly when the last event is a submitted form; the user then has the
    role Admin and the e-mail address of that form, whatever password was
    typed. *)
Theorem sign_in_ignores_password (events : list App.event) :
  (App.isAuthenticated (App.run events) = true <->
   exists u, App.user (App.run events) = Some u) /\
  (forall u, App.user (App.run events) = Some u ->
     App.role u = "Admin"%string /\
     exists before password,
       events = before ++ [App.Submit (App.email u) password]).
Proof.
  unfold App.run.
  induction events as [|e events IH] using rev_ind.
  - simpl. split; [split; [discriminate | intros [u H]; discriminate]|].
    intros u H. discriminate.
  - rewrite fold_left_app. simpl.
    destruct e as [m p|]; simpl.
    + split; [split; [intros _; eexists; reflexivity | reflexivity]|].
      intros u H. injection H as <-. simpl. split; [reflexivity|].
      now exists events, p.
    + split; [split; [discriminate | intros [u H]; discriminate]|].
      intros u H. discriminate.
Qed.

(* ================================================================== *)
(** * The theorems above on the example data *)

Lemma two_tenants_reachable : Store.reachable Examples.two_tenants.
Proof.
  apply (built_reachable Examples.two_tenants_script). reflexivity.
Qed.

Lemma chat_run_reachable script c c' :
  ChatStore.reachable c -> ChatStore.run script c = inr c' ->
  ChatStore.reachable c'.
Proof.
  revert c. induction script as [|[s st] rest IH]; simpl; intros c Hr.
  - intros H. now injection H as <-.
  - destruct (ChatStore.exec s st c) as [e|c1] eqn:E; [discriminate|].
    apply IH. exact (ChatStore.reach_exec s st c c1 Hr E).
Qed.

Lemma chat_reachable : ChatStore.reachable MoreExamples.chat.
Proof.
  apply (chat_run_reachable MoreExamples.chat_script ChatStore.empty_chat).
  - apply ChatStore.reach_empty.
  - reflexivity.
Qed.

Lemma null_arguments_match_nothing_witness :
  Sql.valid_count (Some 5) /\
  Search.match_documents_schema Search.unit_cosine_distance
    Examples.two_tenants None (Some (3 # 4)%Q) (Some 5) (Some 1%N)
  = inr [].
Proof.
  assert (H : Sql.valid_count (Some 5)) by (simpl; lia).
  split; [exact H|].
  exact (proj1 (null_arguments_match_nothing Search.unit_cosine_distance
                  Examples.two_tenants (Some Examples.east)
                  (Some (3 # 4)%Q) (Some 5) (Some 1%N) H)).
Defined.

Lemma negative_count_is_refused_witness :
  -1 < 0 /\
  Search.match_documents_schema Search.unit_cosine_distance
    Examples.two_tenants (Some Examples.east) (Some (3 # 4)%Q) (Some (-1))
    (Some 1%N)
  = inl Sql.NegativeLimit.
Proof.
  assert (H : -1 < 0) by lia.
  split; [exact H|].
  exact (proj1 (negative_count_is_refused Search.unit_cosine_distance
                  Examples.two_tenants (Some Examples.east)
                  (Some (3 # 4)%Q) (-1) (Some 1%N) H)).
Defined.

Lemma returned_rows_outrank_the_rest_witness :
  0 <= 1 /\
  exists full,
    Search.match_documents_migration Search.unit_cosine_distance
      Examples.two_tenants (Some Examples.east) (Some (3 # 4)%Q) None None
    = inr full /\
    Search.match_documents_migration Search.unit_cosine_distance
      Examples.two_tenants (Some Examples.east) (Some (3 # 4)%Q) (Some 1)
      None
    = inr (firstn (Z.to_nat 1) full).
Proof.
  assert (H : 0 <= 1) by lia.
  split; [exact H|].
  destruct (proj2 (returned_rows_outrank_the_rest
                     Search.unit_cosine_distance Examples.two_tenants
                     (Some Examples.east) (Some (3 # 4)%Q) 1 None H))
    as (full & Hfull & Hk & _).
  exists full. split; assumption.
Defined.

Lemma keys_and_owners_kept_witness :
  Store.reachable Examples.two_tenants /\
  Integrity.keyed Examples.two_tenants.
Proof.
  split; [exact two_tenants_reachable|].
  exact (proj1 (keys_and_owners_kept Examples.two_tenants
                  two_tenants_reachable)).
Defined.

Lemma delete_orgs_removes_tenant_witness :
  Store.reachable Examples.two_tenants /\
  exists db',
    Store.exec (Examples.at_time 400) (Store.DeleteOrgs 2%N)
      Examples.two_tenants = inr db' /\
    Store.reachable db'.
Proof.
  split; [exact two_tenants_reachable|].
  destruct (delete_orgs_removes_tenant (Examples.at_time 400)
              Examples.two_tenants 2%N two_tenants_reachable)
    as (db' & Hexec & Hr & _).
  exists db'. split; assumption.
Defined.

Lemma insert_then_delete_document_witness :
  Store.reachable Examples.two_tenants /\
  Store.insert_documents (Examples.at_time 400) MoreExamples.third_document
    Examples.two_tenants = inr MoreExamples.with_third_document /\
  exists row,
    Store.delete_documents (doc_id row) MoreExamples.with_third_document
    = Examples.two_tenants.
Proof.
  split; [exact two_tenants_reachable|]. split; [reflexivity|].
  destruct (insert_then_delete_document (Examples.at_time 400)
              MoreExamples.third_document Examples.two_tenants
              MoreExamples.with_third_document two_tenants_reachable
              eq_refl)
    as (row & _ & _ & Hdel).
  exists row. exact Hdel.
Defined.


Example updated_at_is_not_set_by_hand :
  map (fun d => (doc_status d, doc_updated_at d))
    (documents MoreExamples.processing_started)
  = [(Some "processing"%string, Some 400);
     (Some "uploaded"%string, Some 103)].
Proof. reflexivity. Qed.

Lemma chunk_insert_needs_document_witness :
  Store.insert_document_chunks (Examples.at_time 400)
    MoreExamples.second_chunk Examples.two_tenants
  = inr MoreExamples.with_second_chunk /\
  exists row,
    document_chunks MoreExamples.with_second_chunk
    = document_chunks Examples.two_tenants ++ [row].
Proof.
  split; [reflexivity|].
  destruct (chunk_insert_needs_document (Examples.at_time 400)
              MoreExamples.second_chunk Examples.two_tenants
              MoreExamples.with_second_chunk eq_refl)
    as (row & Hrow & _).
  exists row. exact Hrow.
Defined.

Lemma returned_ids_distinct_witness :
  Store.reachable Examples.two_tenants /\
  forall rows,
    Search.match_documents_migration Search.unit_cosine_distance
      Examples.two_tenants (Some Examples.east) (Some (3 # 4)%Q) (Some 5)
      None = inr rows ->
    NoDup (map Search.mm_id rows).
Proof.
  split; [exact two_tenants_reachable|].
  exact (proj2 (returned_ids_distinct Search.unit_cosine_distance
                  Examples.two_tenants (Some Examples.east)
                  (Some (3 # 4)%Q) (Some 5) None two_tenants_reachable)).
Defined.


Lemma chat_rows_constrained_witness :
  ChatStore.reachable MoreExamples.chat /\
  ChatStore.constrained MoreExamples.chat.
Proof.
  split; [exact chat_reachable|].
  exact (chat_rows_constrained MoreExamples.chat chat_reachable).
Defined.

Lemma delete_session_cascades_witness :
  ChatStore.reachable MoreExamples.chat /\
  forall f,
    In f (ChatStore.chat_feedback
            (ChatStore.delete_chat_sessions 31%N MoreExamples.chat)) <->
    In f (ChatStore.chat_feedback MoreExamples.chat) /\
    Feedback.fb_session_id f <> Some 31%N.
Proof.
  split; [exact chat_reachable|].
  exact (proj2 (proj2 (delete_session_cascades MoreExamples.chat 31%N
                         chat_reachable))).
Defined.



(** On the example data: deleting the session leaves no feedback, the
    member of organization 1 reads one document and deletes none, the admin
    of organization 2 deletes the document of that organization. *)
Example feedback_goes_with_its_session :
  map Feedback.fb_id (ChatStore.chat_feedback MoreExamples.chat) = [51%N] /\
  ChatStore.chat_feedback
    (ChatStore.delete_chat_sessions 31%N MoreExamples.chat) = [].
Proof. split; reflexivity. Qed.

Example member_reads_and_admin_deletes :
  map doc_id
    (documents
       (Rls.visible MoreExamples.profiles (Some 101%N) Examples.two_tenants))
  = [21%N] /\
  Rls.delete_documents_as MoreExamples.profiles (Some 101%N) 21%N
    Examples.two_tenants = Examples.two_tenants /\
  map doc_id
    (documents
       (Rls.delete_documents_as MoreExamples.profiles (Some 102%N) 22%N
          Examples.two_tenants))
  = [21%N] /\
  map dc_id
    (document_chunks
       (Rls.delete_documents_as MoreExamples.profiles (Some 102%N) 22%N
          Examples.two_tenants))
  = [11%N].
Proof. repeat split. Qed.

Example sizes_as_shown :
  map Documents.formatSize [0; 5; 1023; 1024; 1536; 1048575; 1048576]
  = ["0 KB"; "5 B"; "1023 B"; "1.0 KB"; "1.5 KB"; "1024.0 KB";
     "1.00 MB"]%string.
Proof. reflexivity. Qed.
